(** * http-logger: the log line parser and the traffic aggregator

    A shallow embedding of [internal/logger/logger.go], of the line its
    tests write and of [internal/syncbytes/buffer.go], together with the
    parts of the Go standard library they call, and the properties of the
    parser, of the ingestion loop, of the two periodic reports and of the
    synchronised buffer. *)

From Stdlib Require Import ZArith Ascii List Lia SpecFloat.
From Stdlib Require DecimalString.
From stdpp Require Import base option list gmap strings sorting.

Local Open Scope Z_scope.

(** Go strings are byte sequences; they are modelled by [string], one
    [ascii] per byte. *)

Definition dquote : ascii := "034"%char.
Definition backslash : ascii := "092"%char.
Definition str1 (c : ascii) : string := String c EmptyString.

Definition byte_val (c : ascii) : Z := Z.of_N (N_of_ascii c).

Definition is_empty (s : string) : bool :=
  match s with EmptyString => true | String _ _ => false end.

Fixpoint string_forallb (p : ascii -> bool) (s : string) : bool :=
  match s with
  | EmptyString => true
  | String c s' => p c && string_forallb p s'
  end.

(** [starts_with p s]: the first byte of [s] exists and satisfies [p]. *)
Definition starts_with (p : ascii -> bool) (s : string) : bool :=
  match s with EmptyString => false | String c _ => p c end.

(** [contains sub s]: [sub] occurs in [s] as a contiguous substring. *)
Fixpoint contains (sub s : string) : bool :=
  String.prefix sub s ||
  match s with
  | EmptyString => false
  | String _ s' => contains sub s'
  end.

(** ** Package regexp: leftmost-first matching with submatches

    Go's regexp returns the match a backtracking engine finds first:
    alternatives in order, greedy repetition before shorter ones.  The
    matcher below is that engine in continuation-passing style.  The
    program's pattern repeats character classes only, so [OpStar] and
    [OpPlus] take a class.  Matching is per byte; every class of the
    pattern that admits a byte above 127 is a negated one, which admits
    all of them, so the result is that of Go's UTF-8 decoding matcher. *)
Module regexp.

Record class := { negated : bool; ranges : list (ascii * ascii) }.

Definition in_range (c : ascii) (r : ascii * ascii) : bool :=
  (byte_val (fst r) <=? byte_val c) && (byte_val c <=? byte_val (snd r)).

Definition class_matches (cl : class) (c : ascii) : bool :=
  xorb (negated cl) (existsb (in_range c) (ranges cl)).

Inductive syntax : Type :=
| OpEmptyMatch
| OpBeginText
| OpLiteral (c : ascii)
| OpCharClass (cl : class)
| OpConcat (r1 r2 : syntax)
| OpAlternate (r1 r2 : syntax)
| OpQuest (r : syntax)
| OpStar (cl : class)
| OpPlus (cl : class)
| OpCapture (n : nat) (r : syntax).

Fixpoint literal (s : string) : syntax :=
  match s with
  | EmptyString => OpEmptyMatch
  | String c EmptyString => OpLiteral c
  | String c s' => OpConcat (OpLiteral c) (literal s')
  end.

Fixpoint concat (rs : list syntax) : syntax :=
  match rs with
  | [] => OpEmptyMatch
  | [r] => r
  | r :: rs' => OpConcat r (concat rs')
  end.

Fixpoint numSubexp (re : syntax) : nat :=
  match re with
  | OpConcat r1 r2 | OpAlternate r1 r2 => Nat.max (numSubexp r1) (numSubexp r2)
  | OpQuest r => numSubexp r
  | OpCapture n r => Nat.max n (numSubexp r)
  | _ => 0%nat
  end.

Section matcher.
Context {R : Type}.

(** Greedy repetition of a class: the longest run first, then each
    shorter one, down to the empty run. *)
Fixpoint star (p : ascii -> bool) (s : string)
    (k : string -> string -> option R) : option R :=
  match s with
  | String c s' =>
      if p c then
        match star p s' (fun t rest => k (String c t) rest) with
        | Some x => Some x
        | None => k EmptyString s
        end
      else k EmptyString s
  | EmptyString => k EmptyString s
  end.

(** [run re bot s caps k]: match [re] at the front of [s]; [bot] says
    that [s] starts at the beginning of the text; [k] receives the
    matched text, the rest of the input and the submatches. *)
Fixpoint run (re : syntax) (bot : bool) (s : string) (caps : list string)
    (k : string -> string -> list string -> option R) : option R :=
  match re with
  | OpEmptyMatch => k EmptyString s caps
  | OpBeginText => if bot then k EmptyString s caps else None
  | OpLiteral c =>
      match s with
      | String c' s' => if Ascii.eqb c c' then k (str1 c') s' caps else None
      | EmptyString => None
      end
  | OpCharClass cl =>
      match s with
      | String c' s' =>
          if class_matches cl c' then k (str1 c') s' caps else None
      | EmptyString => None
      end
  | OpConcat r1 r2 =>
      run r1 bot s caps (fun t1 s1 c1 =>
        run r2 (bot && is_empty t1) s1 c1 (fun t2 s2 c2 =>
          k (t1 +:+ t2) s2 c2))
  | OpAlternate r1 r2 =>
      match run r1 bot s caps k with
      | Some x => Some x
      | None => run r2 bot s caps k
      end
  | OpQuest r =>
      match run r bot s caps k with
      | Some x => Some x
      | None => k EmptyString s caps
      end
  | OpStar cl => star (class_matches cl) s (fun t rest => k t rest caps)
  | OpPlus cl =>
      match s with
      | String c s' =>
          if class_matches cl c
          then star (class_matches cl) s' (fun t rest => k (String c t) rest caps)
          else None
      | EmptyString => None
      end
  | OpCapture n r => run r bot s caps (fun t rest c' => k t rest (<[n:=t]> c'))
  end.
End matcher.

(** One attempt at the current position: element 0 is the whole match,
    element [n] the text of group [n], empty when the group took no part. *)
Definition match_here (re : syntax) (bot : bool) (s : string) : option (list string) :=
  run re bot s (replicate (S (numSubexp re)) EmptyString)
    (fun t _ caps => Some (<[0%nat:=t]> caps)).

(** The leftmost match: every start position in turn. *)
Fixpoint search (re : syntax) (bot : bool) (s : string) : option (list string) :=
  match match_here re bot s with
  | Some m => Some m
  | None =>
      match s with
      | String _ s' => search re false s'
      | EmptyString => None
      end
  end.

(** [FindStringSubmatch]: [None] is Go's nil slice. *)
Definition FindStringSubmatch (re : syntax) (s : string) : option (list string) :=
  search re true s.

End regexp.

(** ** Go's [error] values that this program can produce *)

Inductive numErr := ErrSyntax | ErrRange.

Inductive error :=
| errorString (msg : string)                      (* fmt.Errorf, errors.New *)
| NumError (Func Num : string) (Err : numErr)     (* *strconv.NumError *)
| ParseError (Layout Value LayoutElem ValueElem Message : string). (* *time.ParseError *)

Definition is_digit (c : ascii) : bool :=
  (48 <=? byte_val c) && (byte_val c <=? 57).

Definition digit_val (c : ascii) : Z := byte_val c - 48.

Definition lowerhex (n : Z) : ascii :=
  ascii_of_N (Z.to_N (if n <? 10 then 48 + n else 87 + n)).

(** The escape [\xhh] of one byte, as both quoting functions below write it. *)
Definition hex_escape (c : ascii) : string :=
  String backslash (String "x" (String (lowerhex (byte_val c / 16))
    (str1 (lowerhex (byte_val c mod 16))))).

(** ** Package strconv *)
Module strconv.

(** [Quote] on the bytes of ASCII: the named escapes, [\xhh] for the other
    control bytes, the byte itself otherwise.  A byte above 127 is written
    as Go writes one that is not valid UTF-8; the program quotes only the
    texts of groups 7 and 8 of its pattern, which are digits or a dash. *)
Definition quote_byte (c : ascii) : string :=
  let n := byte_val c in
  if (n =? 34) || (n =? 92) then String backslash (str1 c)
  else if n =? 7 then String backslash "a"
  else if n =? 8 then String backslash "b"
  else if n =? 12 then String backslash "f"
  else if n =? 10 then String backslash "n"
  else if n =? 13 then String backslash "r"
  else if n =? 9 then String backslash "t"
  else if n =? 11 then String backslash "v"
  else if (n <? 32) || (127 <=? n) then hex_escape c
  else str1 c.

Fixpoint quote_bytes (s : string) : string :=
  match s with
  | EmptyString => EmptyString
  | String c s' => quote_byte c +:+ quote_bytes s'
  end.

Definition Quote (s : string) : string :=
  String dquote (quote_bytes s +:+ str1 dquote).

(** The digit loop of [ParseUint] in base 10 with 64 bits: [inl] the
    value, [inr] the first error met from the left. *)
Fixpoint parseUint (n : Z) (s : string) : Z + numErr :=
  match s with
  | EmptyString => inl n
  | String c s' =>
      if negb (is_digit c) then inr ErrSyntax
      else if 2 ^ 64 <=? n * 10 + digit_val c then inr ErrRange
      else parseUint (n * 10 + digit_val c) s'
  end.

(** [Atoi] with a 64-bit [int]: an optional sign, at least one digit,
    nothing else, and the value inside [-2^63, 2^63).  The short-input
    fast path and [ParseInt] agree, so one definition covers both. *)
Definition Atoi (s : string) : Z + error :=
  let fail e := inr (NumError "Atoi" s e) in
  let '(neg, ds) :=
    match s with
    | String c s' =>
        if Ascii.eqb c "-" then (true, s')
        else if Ascii.eqb c "+" then (false, s')
        else (false, s)
    | EmptyString => (false, s)
    end in
  if is_empty ds then fail ErrSyntax
  else
    match parseUint 0 ds with
    | inr e => fail e
    | inl un =>
        if negb neg && (2 ^ 63 <=? un) then fail ErrRange
        else if neg && (2 ^ 63 <? un) then fail ErrRange
        else inl (if neg then - un else un)
    end.

End strconv.

(** ** Package time *)
Module time.

(** A [Duration] is a count of nanoseconds. *)
Definition Second : Z := 1000000000.

(** [Tick d] is the channel of a ticker of period [d], and nil when
    [d <= 0]: [None] is the nil channel, on which no receive ever succeeds. *)
Definition Tick (d : Z) : option Z :=
  if d <=? 0 then None else Some d.

(** What [Parse] has read: the civil date and time and the zone offset in
    seconds.  The program stores the value and never looks into it. *)
Record Time := {
  Year : Z; Month : Z; Day : Z;
  Hour : Z; Minute : Z; Sec : Z; Nsec : Z;
  ZoneOffset : Z }.

(** The layout elements that [commonLogDateFormat] is made of. *)
Inductive std :=
| stdZeroDay | stdMonth | stdLongYear | stdHour
| stdZeroMinute | stdZeroSecond | stdNumTZ.

Definition stdTable : list (string * std) :=
  [("Jan", stdMonth); ("02", stdZeroDay); ("2006", stdLongYear);
   ("15", stdHour); ("04", stdZeroMinute); ("05", stdZeroSecond);
   ("-0700", stdNumTZ)].

Definition stdAt (layout : string) : option (string * std) :=
  List.find (fun e => String.prefix (fst e) layout) stdTable.

(** [nextStdChunk], iterated over the whole layout and restricted to the
    elements above: the literal text before each element, the element and
    its spelling; [None] closes the list with the text after the last one. *)
Fixpoint layoutChunks (skip : nat) (pre : string) (layout : string)
    : list (string * option (std * string)) :=
  match layout with
  | EmptyString => [(String.rev pre, None)]
  | String c rest =>
      match skip with
      | S n => layoutChunks n pre rest
      | O =>
          match stdAt layout with
          | Some (w, e) =>
              (String.rev pre, Some (e, w))
                :: layoutChunks (String.length w - 1) EmptyString rest
          | None => layoutChunks O (String c pre) rest
          end
      end
  end.

Fixpoint cutspace (s : string) : string :=
  match s with
  | String c s' => if Ascii.eqb c " " then cutspace s' else s
  | EmptyString => s
  end.

(** [skip value prefix]: [inl] the value after the prefix; a space of the
    prefix stands for any number of spaces of the value.  [inr] is errBad
    with the value left at the failure. *)
Fixpoint skip (value prefix : string) (spaced : bool) : string + string :=
  match prefix with
  | EmptyString => inl (if spaced then cutspace value else value)
  | String p prefix' =>
      if Ascii.eqb p " " then
        if spaced then skip value prefix' true
        else if negb (is_empty value) && negb (starts_with (Ascii.eqb " ") value)
        then inr value
        else skip value prefix' true
      else
        let value := if spaced then cutspace value else value in
        match value with
        | String v value' =>
            if Ascii.eqb v p then skip value' prefix' false else inr value
        | EmptyString => inr value
        end
  end.

(** [getnum s fixed]: one or two digits, two when [fixed]; [None] is errBad. *)
Definition getnum (s : string) (fixed : bool) : option (Z * string) :=
  match s with
  | String c0 s1 =>
      if is_digit c0 then
        if starts_with is_digit s1 then
          match s1 with
          | String c1 s2 => Some (digit_val c0 * 10 + digit_val c1, s2)
          | EmptyString => None
          end
        else if fixed then None else Some (digit_val c0, s1)
      else None
  | EmptyString => None
  end.

(** [match_fold s1 s2]: equal up to the case of ASCII letters. *)
Fixpoint match_fold (s1 s2 : string) : bool :=
  match s1, s2 with
  | String c1 r1, String c2 r2 =>
      (Ascii.eqb c1 c2 ||
       let l1 := Z.lor (byte_val c1) 32 in
       let l2 := Z.lor (byte_val c2) 32 in
       (l1 =? l2) && (97 <=? l1) && (l1 <=? 122))
      && match_fold r1 r2
  | EmptyString, EmptyString => true
  | _, _ => false
  end.

Definition shortMonthNames : list string :=
  ["Jan"; "Feb"; "Mar"; "Apr"; "May"; "Jun";
   "Jul"; "Aug"; "Sep"; "Oct"; "Nov"; "Dec"].

Fixpoint lookup (i : Z) (tab : list string) (val : string) : option (Z * string) :=
  match tab with
  | [] => None
  | v :: tab' =>
      let n := String.length v in
      if (n <=? String.length val)%nat && match_fold (String.substring 0 n val) v
      then Some (i, String.substring n (String.length val - n) val)
      else lookup (i + 1) tab' val
  end.

(** [atoi] of package time on a text that starts with a digit: all
    digits, or errAtoi. *)
Fixpoint digits_val (n : Z) (s : string) : option Z :=
  match s with
  | EmptyString => Some n
  | String c s' => if is_digit c then digits_val (n * 10 + digit_val c) s' else None
  end.

Fixpoint take_digits (s : string) : string * string :=
  match s with
  | String c s' =>
      if is_digit c then let '(d, r) := take_digits s' in (String c d, r)
      else (EmptyString, s)
  | EmptyString => (EmptyString, s)
  end.

Definition isLeap (year : Z) : bool :=
  (year mod 4 =? 0) && (negb (year mod 100 =? 0) || (year mod 400 =? 0)).

Definition daysIn (m year : Z) : Z :=
  if (m =? 2) && isLeap year then 29
  else nth (Z.to_nat (m - 1)) [31; 28; 31; 30; 31; 30; 31; 31; 30; 31; 30; 31] 0.

(** [quote] of package time: control bytes and bytes above 127 as [\xhh],
    the quote and the backslash behind a backslash. *)
Fixpoint quote_bytes (s : string) : string :=
  match s with
  | EmptyString => EmptyString
  | String c s' =>
      (if (byte_val c <? 32) || (128 <=? byte_val c) then hex_escape c
       else if Ascii.eqb c dquote || Ascii.eqb c backslash
       then String backslash (str1 c)
       else str1 c) +:+ quote_bytes s'
  end.

Definition quote (s : string) : string :=
  String dquote (quote_bytes s +:+ str1 dquote).

(** The outcome of reading one layout element: the fields and the rest of
    the value, a field out of its range (with the value at that point), or
    errBad. *)
Inductive elem_result :=
| ElemOk (t : Time) (value : string)
| ElemRange (what : string) (value : string)
| ElemBad.

Definition commaOrPeriod (c : ascii) : bool :=
  Ascii.eqb c "." || Ascii.eqb c ",".

(** The fraction that may follow the seconds although the layout has none:
    a period or comma and digits, of which nine count. *)
Definition fraction (t : Time) (value : string) : elem_result :=
  match value with
  | String c0 value' =>
      if commaOrPeriod c0 && starts_with is_digit value' then
        let '(ds, rest) := take_digits value' in
        let kept := String.substring 0 9 ds in
        match digits_val 0 kept with
        | Some ns =>
            ElemOk {| Year := Year t; Month := Month t; Day := Day t;
                      Hour := Hour t; Minute := Minute t; Sec := Sec t;
                      Nsec := ns * 10 ^ (9 - Z.of_nat (String.length kept));
                      ZoneOffset := ZoneOffset t |} rest
        | None => ElemBad
        end
      else ElemOk t value
  | EmptyString => ElemOk t value
  end.

Definition parseElem (e : std) (value : string) (t : Time) : elem_result :=
  match e with
  | stdZeroDay =>
      match getnum value true with
      | Some (d, value') =>
          ElemOk {| Year := Year t; Month := Month t; Day := d;
                    Hour := Hour t; Minute := Minute t; Sec := Sec t;
                    Nsec := Nsec t; ZoneOffset := ZoneOffset t |} value'
      | None => ElemBad
      end
  | stdMonth =>
      match lookup 0 shortMonthNames value with
      | Some (m, value') =>
          ElemOk {| Year := Year t; Month := m + 1; Day := Day t;
                    Hour := Hour t; Minute := Minute t; Sec := Sec t;
                    Nsec := Nsec t; ZoneOffset := ZoneOffset t |} value'
      | None => ElemBad
      end
  | stdLongYear =>
      if (String.length value <? 4)%nat || negb (starts_with is_digit value)
      then ElemBad
      else
        match digits_val 0 (String.substring 0 4 value) with
        | Some y =>
            ElemOk {| Year := y; Month := Month t; Day := Day t;
                      Hour := Hour t; Minute := Minute t; Sec := Sec t;
                      Nsec := Nsec t; ZoneOffset := ZoneOffset t |}
                   (String.substring 4 (String.length value - 4) value)
        | None => ElemBad
        end
  | stdHour =>
      match getnum value false with
      | Some (h, value') =>
          if 24 <=? h then ElemRange "hour" value'
          else ElemOk {| Year := Year t; Month := Month t; Day := Day t;
                         Hour := h; Minute := Minute t; Sec := Sec t;
                         Nsec := Nsec t; ZoneOffset := ZoneOffset t |} value'
      | None => ElemBad
      end
  | stdZeroMinute =>
      match getnum value true with
      | Some (m, value') =>
          if 60 <=? m then ElemRange "minute" value'
          else ElemOk {| Year := Year t; Month := Month t; Day := Day t;
                         Hour := Hour t; Minute := m; Sec := Sec t;
                         Nsec := Nsec t; ZoneOffset := ZoneOffset t |} value'
      | None => ElemBad
      end
  | stdZeroSecond =>
      match getnum value true with
      | Some (s, value') =>
          if 60 <=? s then ElemRange "second" value'
          else fraction {| Year := Year t; Month := Month t; Day := Day t;
                           Hour := Hour t; Minute := Minute t; Sec := s;
                           Nsec := Nsec t; ZoneOffset := ZoneOffset t |} value'
      | None => ElemBad
      end
  | stdNumTZ =>
      if (String.length value <? 5)%nat then ElemBad
      else
        let sign := String.substring 0 1 value in
        let rest := String.substring 5 (String.length value - 5) value in
        match getnum (String.substring 1 2 value) true with
        | Some (hr, _) =>
            match getnum (String.substring 3 2 value) true with
            | Some (mm, _) =>
                if 60 <? mm then ElemRange "time zone offset minute" rest
                else if 24 <? hr then ElemRange "time zone offset hour" rest
                else
                  let off := (hr * 60 + mm) * 60 in
                  let zoned z :=
                    ElemOk {| Year := Year t; Month := Month t; Day := Day t;
                              Hour := Hour t; Minute := Minute t; Sec := Sec t;
                              Nsec := Nsec t; ZoneOffset := z |} rest in
                  if String.eqb sign "+" then zoned off
                  else if String.eqb sign "-" then zoned (- off)
                  else ElemBad
            | None => if 24 <? hr then ElemRange "time zone offset hour" rest else ElemBad
            end
        | None => ElemBad
        end
  end.

Fixpoint parseChunks (alayout avalue : string)
    (chunks : list (string * option (std * string)))
    (value : string) (t : Time) : Time + error :=
  match chunks with
  | [] => inl t
  | (prefix, o) :: chunks' =>
      match skip value prefix false with
      | inr v => inr (ParseError alayout avalue prefix v EmptyString)
      | inl value =>
          match o with
          | None =>
              if negb (is_empty value) then
                inr (ParseError alayout avalue EmptyString value
                       (": extra text: " +:+ quote value))
              else if (Day t <? 1) || (daysIn (Month t) (Year t) <? Day t) then
                inr (ParseError alayout avalue EmptyString value ": day out of range")
              else inl t
          | Some (e, stdstr) =>
              match parseElem e value t with
              | ElemOk t' value' => parseChunks alayout avalue chunks' value' t'
              | ElemRange what v =>
                  inr (ParseError alayout avalue stdstr v
                         (": " +:+ what +:+ " out of range"))
              | ElemBad => inr (ParseError alayout avalue stdstr value EmptyString)
              end
          end
      end
  end.

(** [Parse layout value] for a layout made of the elements above. *)
Definition Parse (layout value : string) : Time + error :=
  parseChunks layout value (layoutChunks O EmptyString layout) value
    {| Year := 0; Month := -1; Day := -1; Hour := 0; Minute := 0; Sec := 0;
       Nsec := 0; ZoneOffset := -1 |}.

End time.

(** [Error()] of each kind of error. *)
Definition Error (e : error) : string :=
  match e with
  | errorString msg => msg
  | NumError fn num err =>
      "strconv." +:+ fn +:+ ": parsing " +:+ strconv.Quote num +:+ ": " +:+
      match err with
      | ErrSyntax => "invalid syntax"
      | ErrRange => "value out of range"
      end
  | ParseError layout value layoutElem valueElem message =>
      if is_empty message then
        "parsing time " +:+ time.quote value +:+ " as " +:+ time.quote layout +:+
        ": cannot parse " +:+ time.quote valueElem +:+ " as " +:+ time.quote layoutElem
      else "parsing time " +:+ time.quote value +:+ message
  end.

(** ** Package bytes *)
Module bytes.

(** Width in bytes of the white space rune at the front of [s], 0 when
    there is none; with [last], of the one whose bytes, in reverse, are at
    the front of [s].  The runes are those of unicode.IsSpace in UTF-8. *)
Definition spaceWidth (last : bool) (s : string) : nat :=
  let b (i : nat) := from_option byte_val (-1) (String.get i s) in
  let '(x0, x1) := if last then (b 1%nat, b 0%nat) else (b 0%nat, b 1%nat) in
  let '(y0, y1, y2) :=
    if last then (b 2%nat, b 1%nat, b 0%nat) else (b 0%nat, b 1%nat, b 2%nat) in
  if ((9 <=? b 0%nat) && (b 0%nat <=? 13)) || (b 0%nat =? 32) then 1%nat
  else if (x0 =? 194) && ((x1 =? 133) || (x1 =? 160)) then 2%nat
  else if (y0 =? 225) && (y1 =? 154) && (y2 =? 128) then 3%nat
  else if (y0 =? 226) && (y1 =? 128) &&
          (((128 <=? y2) && (y2 <=? 138)) || (y2 =? 168) || (y2 =? 169) || (y2 =? 175))
  then 3%nat
  else if (y0 =? 226) && (y1 =? 129) && (y2 =? 159) then 3%nat
  else if (y0 =? 227) && (y1 =? 128) && (y2 =? 128) then 3%nat
  else 0%nat.

Fixpoint trim (last : bool) (fuel : nat) (s : string) : string :=
  match fuel with
  | O => s
  | S fuel' =>
      match spaceWidth last s with
      | O => s
      | w => trim last fuel' (String.substring w (String.length s - w) s)
      end
  end.

(** [TrimSpace]: all leading and all trailing white space runes removed. *)
Definition TrimSpace (s : string) : string :=
  let l := trim false (String.length s) s in
  String.rev (trim true (String.length l) (String.rev l)).

(** The reads [ReadBytes] with the newline as delimiter returns before the
    end of the input, each with its delimiter.  What follows the last
    newline comes with io.EOF and is not among them. *)
Fixpoint readLines (cur : string) (input : string) : list string :=
  match input with
  | EmptyString => []
  | String c rest =>
      if Ascii.eqb c "010" then String.rev (String c cur) :: readLines EmptyString rest
      else readLines (String c cur) rest
  end.

End bytes.

(** ** float64 and its formatting *)
Module float64.

Definition prec : Z := 53.
Definition emax : Z := 1024.

(** The conversion of an [int], rounding to nearest even. *)
Definition of_int (n : Z) : spec_float := binary_normalize prec emax n 0 false.
Definition mul : spec_float -> spec_float -> spec_float := SFmul prec emax.
Definition div : spec_float -> spec_float -> spec_float := SFdiv prec emax.

(** [n / d] rounded to the nearest integer, a tie to the even one. *)
Definition round_half_even (n d : Z) : Z :=
  let q := n / d in
  match 2 * (n mod d) ?= d with
  | Lt => q
  | Eq => if Z.even q then q else q + 1
  | Gt => q + 1
  end.

(** The hundredths in [m * 2^e], rounded. *)
Definition hundredths (m : positive) (e : Z) : Z :=
  if 0 <=? e then Zpos m * 2 ^ e * 100
  else round_half_even (Zpos m * 100) (2 ^ (- e)).

Definition decimal (n : Z) : string :=
  DecimalString.NilZero.string_of_uint (N.to_uint (Z.to_N n)).

(** The verb [%0.2f]: the exact value rounded to two decimals. *)
Definition format_2f (f : spec_float) : string :=
  match f with
  | S754_nan => "NaN"
  | S754_infinity s => if s then "-Inf" else "+Inf"
  | S754_zero s => if s then "-0.00" else "0.00"
  | S754_finite s m e =>
      let h := hundredths m e in
      (if s then "-" else EmptyString) +:+ decimal (h / 100) +:+ "." +:+
      decimal (h mod 100 / 10) +:+ decimal (h mod 10)
  end.

End float64.

(** ** Package sort and package strings *)

Definition sort_Strings (l : list string) : list string := merge_sort String.le l.

Definition strings_Join (elems : list string) (sep : string) : string :=
  String.concat sep elems.

(** Go's [int] is 64 bits wide and wraps around. *)
Definition int_wrap (z : Z) : Z := (z + 2 ^ 63) mod 2 ^ 64 - 2 ^ 63.

(** * Package logger *)

Import regexp.

Definition notSpace : class :=                    (* \S *)
  {| negated := true; ranges := [("009", "010"); ("012", "013"); (" ", " ")]%char |}.
Definition notRBracket : class :=                 (* [^\]] *)
  {| negated := true; ranges := [("]", "]")]%char |}.
Definition upper : class :=                       (* [A-Z] *)
  {| negated := false; ranges := [("A", "Z")]%char |}.
Definition segmentByte : class :=                 (* [^/ dquote] *)
  {| negated := true; ranges := [("/", "/"); (" ", " "); (dquote, dquote)]%char |}.
Definition pathByte : class :=                    (* [^ dquote] *)
  {| negated := true; ranges := [(" ", " "); (dquote, dquote)]%char |}.
Definition digitDot : class :=                    (* [0-9.] *)
  {| negated := false; ranges := [("0", "9"); (".", ".")]%char |}.
Definition digit : class :=                       (* [0-9] *)
  {| negated := false; ranges := [("0", "9")]%char |}.

(** [commonLogFormatPattern], compiled; one line of the source per line. *)
Definition commonLogFormatRegexp : syntax :=
  concat
    [ OpBeginText; OpCapture 1 (OpPlus notSpace);
      literal " "; OpPlus notSpace;
      literal " "; OpCapture 2 (OpPlus notSpace);
      literal " ["; OpCapture 3 (OpPlus notRBracket); literal "]";
      literal " "; OpLiteral dquote; OpCapture 4 (OpPlus upper);
      literal " ";
        OpQuest (OpCapture 5 (OpConcat
          (OpCapture 6 (OpConcat (OpQuest (OpLiteral "/")) (OpPlus segmentByte)))
          (OpStar pathByte)));
        literal " HTTP/"; OpPlus digitDot; OpLiteral dquote;
      literal " "; OpCapture 7 (concat [OpCharClass digit; OpCharClass digit; OpCharClass digit]);
      literal " "; OpCapture 8 (OpAlternate (OpPlus digit) (OpLiteral "-")) ].

Definition commonLogDateFormat : string := "02/Jan/2006:15:04:05 -0700".

Record commonLogEntry := {
  ClientIP : string; UserID : string; Time : time.Time;
  Method : string; Section : string; Resource : string;
  Status : Z; Size : Z }.

(** [parseLineEntry] returns a pointer and an error: [None] in the first
    component is the nil pointer, [None] in the second the nil error. *)
Definition parseLineEntry (line : string) : option commonLogEntry * option error :=
  match FindStringSubmatch commonLogFormatRegexp line with
  | None => (None, Some (errorString ("could not parse line '" +:+ line +:+ "'")))
  | Some matches =>
      match time.Parse commonLogDateFormat (matches !!! 3%nat) with
      | inr err => (None, Some err)
      | inl time =>
          match strconv.Atoi (matches !!! 7%nat) with
          | inr err => (None, Some err)
          | inl status =>
              match strconv.Atoi (matches !!! 8%nat) with
              | inr err => (None, Some err)
              | inl size =>
                  (Some {| ClientIP := matches !!! 1%nat;
                           UserID := matches !!! 2%nat; Time := time;
                           Method := matches !!! 4%nat; Section := matches !!! 6%nat;
                           Resource := matches !!! 5%nat;
                           Status := status;
                           Size := size |}, None)
              end
          end
      end
  end.

(** [Config] without its two streams: the input is the text given to
    [Run], the output the list of messages written so far. *)
Record Config := {
  UpdateInterval : Z;
  HighTrafficInterval : Z;
  HighTrafficThreshold : Z }.

Record logger := {
  config : Config;
  sectionHits : gmap string Z;
  totalTraffic : Z;
  isHighTrafficTriggered : bool }.

(** One write to [Output]. *)
Inductive message :=
| MsgWarning (err : error)
| MsgNoHits
| MsgBusiest (activeSections : list string) (hitsPerSecond : spec_float)
| MsgHighTraffic (hitsPerSecond : spec_float) (now : string)
| MsgResolved (now : string).

Definition newline : string := str1 "010".

(** The text of each write, by the format strings of the source. *)
Definition render (m : message) : string :=
  match m with
  | MsgWarning err => "WARNING: " +:+ Error err +:+ newline
  | MsgNoHits => "no hits to server" +:+ newline
  | MsgBusiest activeSections hitsPerSecond =>
      "busiest sections: " +:+ strings_Join activeSections ", " +:+
      " (" +:+ float64.format_2f hitsPerSecond +:+ " hits per second)" +:+ newline
  | MsgHighTraffic hitsPerSecond now =>
      "WARNING: high traffic of " +:+ float64.format_2f hitsPerSecond +:+
      " hits per second, triggered at " +:+ now +:+ newline
  | MsgResolved now =>
      "WARNING: high traffic condition resolved at " +:+ now +:+ newline
  end.

(** The mutable fields of [logger], and what a goroutine does to them and
    to [sectionHitsLock], in the order it does it. *)
Inductive field := fSectionHits | fTotalTraffic | fIsHighTrafficTriggered.

Inductive event :=
| EvLock
| EvUnlock
| EvRead (f : field)
| EvWrite (f : field).

Record world := {
  lg : logger;
  output : list message;
  trace : list event }.

Inductive outcome (A : Type) :=
| Return (a : A) (w : world)
| Panic (reason : string) (w : world).
Arguments Return {A} a w.
Arguments Panic {A} reason w.

Definition M (A : Type) : Type := world -> outcome A.

Definition ret {A} (a : A) : M A := fun w => Return a w.

Definition bind {A B} (m : M A) (f : A -> M B) : M B :=
  fun w =>
    match m w with
    | Return a w' => f a w'
    | Panic reason w' => Panic reason w'
    end.

Notation "x <- m ;; k" := (bind m (fun x => k))
  (at level 100, m at next level, right associativity).
Notation "m ;; k" := (bind m (fun _ => k))
  (at level 100, right associativity).

Definition final {A} (o : outcome A) : world :=
  match o with Return _ w => w | Panic _ w => w end.

Definition record (e : event) (w : world) : world :=
  {| lg := lg w; output := output w; trace := trace w ++ [e] |}.

Definition with_logger (l : logger) (w : world) : world :=
  {| lg := l; output := output w; trace := trace w |}.

Definition Lock : M unit := fun w => Return tt (record EvLock w).
Definition Unlock : M unit := fun w => Return tt (record EvUnlock w).

Definition get_config : M Config := fun w => Return (config (lg w)) w.

Definition load_sectionHits : M (gmap string Z) :=
  fun w => Return (sectionHits (lg w)) (record (EvRead fSectionHits) w).

Definition store_sectionHits (m : gmap string Z) : M unit :=
  fun w =>
    Return tt (record (EvWrite fSectionHits)
      (with_logger {| config := config (lg w); sectionHits := m;
                      totalTraffic := totalTraffic (lg w);
                      isHighTrafficTriggered := isHighTrafficTriggered (lg w) |} w)).

Definition load_totalTraffic : M Z :=
  fun w => Return (totalTraffic (lg w)) (record (EvRead fTotalTraffic) w).

Definition store_totalTraffic (n : Z) : M unit :=
  fun w =>
    Return tt (record (EvWrite fTotalTraffic)
      (with_logger {| config := config (lg w); sectionHits := sectionHits (lg w);
                      totalTraffic := n;
                      isHighTrafficTriggered := isHighTrafficTriggered (lg w) |} w)).

Definition load_isHighTrafficTriggered : M bool :=
  fun w => Return (isHighTrafficTriggered (lg w))
             (record (EvRead fIsHighTrafficTriggered) w).

Definition store_isHighTrafficTriggered (b : bool) : M unit :=
  fun w =>
    Return tt (record (EvWrite fIsHighTrafficTriggered)
      (with_logger {| config := config (lg w); sectionHits := sectionHits (lg w);
                      totalTraffic := totalTraffic (lg w);
                      isHighTrafficTriggered := b |} w)).

(** [fmt.Fprintf] and [fmt.Fprintln] on [logger.Output]. *)
Definition Fprint (m : message) : M unit :=
  fun w => Return tt {| lg := lg w; output := output w ++ [m]; trace := trace w |}.

Definition nilDereference : string :=
  "runtime error: invalid memory address or nil pointer dereference".

(** Reading a field through a pointer panics when the pointer is nil. *)
Definition deref {A} (p : option A) : M A :=
  fun w =>
    match p with
    | Some a => Return a w
    | None => Panic nilDereference w
    end.

(** The body of the loop of [Run] after a successful read: lines 54 to 67. *)
Definition Run_iteration (line : string) : M unit :=
  let line := bytes.TrimSpace line in
  let '(entry, err) := parseLineEntry line in
  match err with
  | Some e => Fprint (MsgWarning e)
  | None => ret tt
  end ;;
  n <- load_totalTraffic ;;
  store_totalTraffic (int_wrap (n + 1)) ;;
  Lock ;;
  e <- deref entry ;;
  hits <- load_sectionHits ;;
  store_sectionHits (<[Section e := int_wrap (default 0 (hits !! Section e) + 1)]> hits) ;;
  Unlock.

Fixpoint Run_loop (lines : list string) : M unit :=
  match lines with
  | [] => ret tt
  | line :: lines' => Run_iteration line ;; Run_loop lines'
  end.

Definition newLogger (c : Config) : world :=
  {| lg := {| config := c; sectionHits := ∅; totalTraffic := 0;
              isHighTrafficTriggered := false |};
     output := []; trace := [] |}.

(** The loop of [printUpdate] over the old map, in the order [l] in which
    the iteration happens to visit its entries. *)
Definition busiest_step (acc : Z * list string) (kv : string * Z) : Z * list string :=
  let '(maxHits, activeSections) := acc in
  let '(section, hits) := kv in
  let '(maxHits, activeSections) :=
    if maxHits <? hits then (hits, []) else (maxHits, activeSections) in
  if maxHits =? hits then (maxHits, activeSections ++ [section])
  else (maxHits, activeSections).

Definition busiest (l : list (string * Z)) : Z * list string :=
  fold_left busiest_step l (0, []).

Definition hitsPerSecond (hits interval : Z) : spec_float :=
  float64.div (float64.mul (float64.of_int hits) (float64.of_int time.Second))
              (float64.of_int interval).

(** What [printUpdate] writes for the old map visited in the order [l]. *)
Definition update_message (c : Config) (l : list (string * Z)) : message :=
  let '(maxHits, activeSections) := busiest l in
  let rate := hitsPerSecond maxHits (UpdateInterval c) in
  if maxHits =? 0 then MsgNoHits
  else MsgBusiest (sort_Strings activeSections) rate.

Definition printUpdate : M unit :=
  Lock ;;
  oldSectionHits <- load_sectionHits ;;
  store_sectionHits ∅ ;;
  Unlock ;;
  c <- get_config ;;
  Fprint (update_message c (map_to_list oldSectionHits)).

(** Go's [&&]: the right operand is evaluated only when the left one holds. *)
Definition andM (a b : M bool) : M bool :=
  x <- a ;; if x then b else ret false.

(** [now] is the text of [time.Now().Format(time.RFC3339)]. *)
Definition checkHighTraffic (now : string) : M unit :=
  c <- get_config ;;
  trigger <- andM (total <- load_totalTraffic ;; ret (HighTrafficThreshold c <? total))
                  (triggered <- load_isHighTrafficTriggered ;; ret (negb triggered)) ;;
  (if trigger then
     total <- load_totalTraffic ;;
     Fprint (MsgHighTraffic (hitsPerSecond total (HighTrafficInterval c)) now) ;;
     store_isHighTrafficTriggered true
   else ret tt) ;;
  resolve <- andM (total <- load_totalTraffic ;; ret (total <=? HighTrafficThreshold c))
                  load_isHighTrafficTriggered ;;
  (if resolve then
     Fprint (MsgResolved now) ;;
     store_isHighTrafficTriggered false
   else ret tt) ;;
  store_totalTraffic 0.

(** ** The goroutine of [watch] beside the loop of [Run]

    One step of the program is one iteration of the reading loop or one
    case of the select statement.  A ticker case can be taken only when
    its channel is not nil. *)
Inductive step :=
| ReadLine (line : string)
| UpdateTick
| HighTrafficTick (now : string).

(** [watch] makes the two tickers; the goroutine it starts selects among
    them (and the stop channel). *)
Record tickers := {
  updateTicker : option Z;
  highTrafficTicker : option Z }.

Definition watch (c : Config) : tickers :=
  {| updateTicker := time.Tick (UpdateInterval c);
     highTrafficTicker := time.Tick (HighTrafficInterval c) |}.

Definition ready (t : tickers) (s : step) : bool :=
  match s with
  | ReadLine _ => true
  | UpdateTick => bool_decide (is_Some (updateTicker t))
  | HighTrafficTick _ => bool_decide (is_Some (highTrafficTicker t))
  end.

Definition fire (s : step) : M unit :=
  match s with
  | ReadLine line => Run_iteration line
  | UpdateTick => printUpdate
  | HighTrafficTick now => checkHighTraffic now
  end.

(** [schedule steps w]: the program taking [steps] in this order from
    [w]; [None] when some step is not ready, or comes after a panic, which
    ends the program. *)
Fixpoint schedule (steps : list step) (w : world) : option (outcome unit) :=
  match steps with
  | [] => Some (Return tt w)
  | s :: steps' =>
      if ready (watch (config (lg w))) s then
        match fire s w with
        | Return _ w' => schedule steps' w'
        | Panic reason w' =>
            match steps' with
            | [] => Some (Panic reason w')
            | _ :: _ => None
            end
        end
      else None
  end.

(** [Run] on the whole input with no tick in between. *)
Definition Run (c : Config) (input : string) : outcome unit :=
  Run_loop (bytes.readLines EmptyString input) (newLogger c).

Definition lines_read (steps : list step) : list string :=
  omap (fun s => match s with ReadLine line => Some line | _ => None end) steps.

(** [execution c input steps o]: [Run c] on [input] can take [steps] and
    end in [o]: the lines are read in order, all of them when [Run]
    returns, those up to the panic otherwise, and the ticks fall anywhere
    in between. *)
Definition execution (c : Config) (input : string) (steps : list step)
    (o : outcome unit) : Prop :=
  schedule steps (newLogger c) = Some o /\
  match o with
  | Return _ _ => lines_read steps = bytes.readLines EmptyString input
  | Panic _ _ => lines_read steps `prefix_of` bytes.readLines EmptyString input
  end.

(** The lock discipline: [guarded held t] holds when every read and write
    of a field in [t] happens with the lock held, [held] being its state
    at the start. *)
Fixpoint guarded (held : bool) (t : list event) : bool :=
  match t with
  | [] => true
  | EvLock :: t' => guarded true t'
  | EvUnlock :: t' => guarded false t'
  | (EvRead _ | EvWrite _) :: t' => held && guarded held t'
  end.

Definition is_status_update (m : message) : bool :=
  match m with MsgNoHits | MsgBusiest _ _ => true | _ => false end.

Definition is_traffic_report (m : message) : bool :=
  match m with MsgHighTraffic _ _ | MsgResolved _ => true | _ => false end.

Definition is_warning (m : message) : bool :=
  match m with MsgWarning _ => true | _ => false end.

(** ** Well-formed lines

    The fields of a line in Common Log Format, and the line they spell.
    The request path is an optional slash, a first segment [seg] and the
    remainder [rest]; [trailer] is whatever follows the size field. *)
Record clf_fields := {
  f_client : string;
  f_ident : string;
  f_user : string;
  f_timestamp : string;
  f_method : string;
  f_slash : bool;
  f_seg : string;
  f_rest : string;
  f_version : string;
  f_status : string;
  f_size : string;
  f_trailer : string }.

Definition clf_path (f : clf_fields) : string :=
  (if f_slash f then "/" else EmptyString) +:+ f_seg f +:+ f_rest f.

Definition clf_section (f : clf_fields) : string :=
  (if f_slash f then "/" else EmptyString) +:+ f_seg f.

Definition clf_line (f : clf_fields) : string :=
  f_client f +:+ " " +:+ f_ident f +:+ " " +:+ f_user f +:+
  " [" +:+ f_timestamp f +:+ "] " +:+ str1 dquote +:+
  f_method f +:+ " " +:+ clf_path f +:+ " HTTP/" +:+ f_version f +:+ str1 dquote +:+
  " " +:+ f_status f +:+ " " +:+ f_size f +:+ f_trailer f.

(** A non-empty text of bytes of the class. *)
Definition token (cl : class) (s : string) : bool :=
  negb (is_empty s) && string_forallb (class_matches cl) s.

(** The path has a first segment, which is not empty and ends where the
    remainder starts (at a slash or at the end of the path), or the path
    is empty altogether. *)
Definition path_wellformed (f : clf_fields) : bool :=
  (token segmentByte (f_seg f) &&
   string_forallb (class_matches pathByte) (f_rest f) &&
   negb (starts_with (class_matches segmentByte) (f_rest f))) ||
  (negb (f_slash f) && is_empty (f_seg f) && is_empty (f_rest f)).

(** Each field is of the shape its place in the pattern asks for: the
    status is three digits, and the size is a dash, or digits that the
    trailer does not continue. *)
Definition clf_wellformed (f : clf_fields) : bool :=
  token notSpace (f_client f) && token notSpace (f_ident f) &&
  token notSpace (f_user f) && token notRBracket (f_timestamp f) &&
  token upper (f_method f) && path_wellformed f &&
  token digitDot (f_version f) &&
  (String.length (f_status f) =? 3)%nat &&
  string_forallb (class_matches digit) (f_status f) &&
  (String.eqb (f_size f) "-" ||
   token digit (f_size f) && negb (starts_with (class_matches digit) (f_trailer f))).

(** [accepts re bot s t s' upd]: the first path the matcher tries for [re]
    on the input [s] takes the text [t], leaves [s'] and changes the
    submatches by [upd]; whatever the continuation answers on that path is
    the answer of the run. *)
Definition accepts (re : syntax) (bot : bool) (s t s' : string)
    (upd : list string -> list string) : Prop :=
  forall (R : Type) (caps : list string)
         (k : string -> string -> list string -> option R) (x : R),
    k t s' (upd caps) = Some x -> run re bot s caps k = Some x.

(** ** Sample input *)

(** A line of an access log with the given request path and size field,
    as [ReadBytes] returns it. *)
Definition sample_line (path size : string) : string :=
  "238.129.94.11 - - [10/Oct/2000:13:55:36 -0700] " +:+ str1 dquote +:+
  "GET " +:+ path +:+ " HTTP/1.0" +:+ str1 dquote +:+ " 200 " +:+ size +:+ newline.

Definition garbage_line : string := "garbage" +:+ newline.

(** A state in the middle of a window: [n] hits counted so far. *)
Definition mid_window (c : Config) (n : Z) : world :=
  {| lg := {| config := c; sectionHits := ∅; totalTraffic := n;
              isHighTrafficTriggered := false |};
     output := []; trace := [] |}.

Definition sample_config : Config :=
  {| UpdateInterval := 0; HighTrafficInterval := time.Second;
     HighTrafficThreshold := 1 |}.

(** The fields of the line that the tests of the repository write, with
    the given size field. *)
Definition sample_fields (size : string) : clf_fields :=
  {| f_client := "238.129.94.11"; f_ident := "-"; f_user := "-";
     f_timestamp := "10/Oct/2000:13:55:36 -0700"; f_method := "PUT";
     f_slash := true; f_seg := "section-a"; f_rest := "/posts";
     f_version := "1.0"; f_status := "200"; f_size := size;
     f_trailer := EmptyString |}.

(** ** Windows and counts *)

Definition is_update_tick (s : step) : bool :=
  match s with UpdateTick => true | _ => false end.


(** The steps after the last one that satisfies [p]; all of them when none
    does. *)
Definition since_last (p : step -> bool) (steps : list step) : list step :=
  fold_left (fun acc s => if p s then [] else acc ++ [s]) steps [].

(** The section under which the reading loop counts a line, [None] when
    the line does not parse. *)
Definition section_of (line : string) : option string :=
  match fst (parseLineEntry (bytes.TrimSpace line)) with
  | Some e => Some (e.(Section))
  | None => None
  end.

(** How many of the lines count under [section]. *)
Definition hits_of (section : string) (lines : list string) : nat :=
  length (filter (fun l => section_of l = Some section) lines).

(** The map entry after [n] increments of a missing key. *)
Definition counter (n : nat) : option Z :=
  if (n =? 0)%nat then None else Some (int_wrap (Z.of_nat n)).

(** What one step does to the running total and to the section counters. *)
Definition step_total (total : Z) (s : step) : Z :=
  match s with
  | ReadLine _ => int_wrap (total + 1)
  | UpdateTick => total
  | HighTrafficTick _ => 0
  end.

Definition step_hits (hits : gmap string Z) (s : step) : gmap string Z :=
  match s with
  | ReadLine line =>
      match section_of line with
      | Some sec => <[sec := int_wrap (default 0 (hits !! sec) + 1)]> hits
      | None => hits
      end
  | UpdateTick => ∅
  | HighTrafficTick _ => hits
  end.



Definition is_panic {A} (o : outcome A) : bool :=
  match o with Panic _ _ => true | Return _ _ => false end.

(** ** The lines that [Run] processes *)

Definition parses (line : string) : bool :=
  match section_of line with Some _ => true | None => false end.

(** The lines up to the first that does not parse, that one included. *)
Fixpoint processed (lines : list string) : list string :=
  match lines with
  | [] => []
  | line :: lines' => line :: (if parses line then processed lines' else [])
  end.

(** The warning that the reading loop writes for a line. *)
Definition warning_of (line : string) : list message :=
  match snd (parseLineEntry (bytes.TrimSpace line)) with
  | Some err => [MsgWarning err]
  | None => []
  end.



(** ** Package syncbytes

    [Buffer] is a [bytes.Buffer] behind a mutex.  Of the inner buffer only
    the unread bytes matter; [log] is what the methods do to the mutex and
    to the inner buffer, in order. *)
Module syncbytes.

Inductive event := Lock | Unlock | Access.

Record Buffer := { unread : string; log : list event }.

(** A method body: lock, the call on the inner buffer, and the deferred
    unlock when it returns. *)
Definition locked {A} (f : string -> A * string) (buf : Buffer) : A * Buffer :=
  let '(a, s) := f (unread buf) in
  (a, {| unread := s; log := log buf ++ [Lock; Access; Unlock] |}).

(** [Read p] with [n = len(p)]: the bytes copied into [p] and whether the
    error is io.EOF. *)
Definition Read (n : nat) : Buffer -> (string * bool) * Buffer :=
  locked (fun s =>
    if is_empty s then ((EmptyString, negb (n =? 0)%nat), s)
    else ((String.substring 0 n s, false),
          String.substring n (String.length s - n) s)).

(** [Write p]: the count returned; the error is always nil. *)
Definition Write (p : string) : Buffer -> nat * Buffer :=
  locked (fun s => (String.length p, s +:+ p)).

Definition String_ : Buffer -> string * Buffer :=
  locked (fun s => (s, s)).

Definition Reset : Buffer -> unit * Buffer :=
  locked (fun s => (tt, EmptyString)).

(** A use of the buffer: a sequence of calls, with the bytes that the
    reads return and the bytes that the writes take. *)
Inductive call :=
| CallRead (n : nat)
| CallWrite (p : string)
| CallString
| CallReset.

Definition do_call (c : call) (buf : Buffer) : string * Buffer :=
  match c with
  | CallRead n => let '((got, _), buf') := Read n buf in (got, buf')
  | CallWrite p => let '(_, buf') := Write p buf in (EmptyString, buf')
  | CallString => let '(_, buf') := String_ buf in (EmptyString, buf')
  | CallReset => let '(_, buf') := Reset buf in (EmptyString, buf')
  end.

(** All the bytes read by the calls, in order, and the buffer after them. *)
Fixpoint do_calls (cs : list call) (buf : Buffer) : string * Buffer :=
  match cs with
  | [] => (EmptyString, buf)
  | c :: cs' =>
      let '(got, buf') := do_call c buf in
      let '(rest, buf'') := do_calls cs' buf' in
      (got +:+ rest, buf'')
  end.

Fixpoint written (cs : list call) : string :=
  match cs with
  | [] => EmptyString
  | CallWrite p :: cs' => p +:+ written cs'
  | _ :: cs' => written cs'
  end.

Definition is_reset (c : call) : bool :=
  match c with CallReset => true | _ => false end.

End syncbytes.

(** ** The texts of a pattern

    [generates re bot t]: [t] is one of the texts that [re] can take at a
    position, [bot] saying that the position is the beginning of the
    text.  The matcher returns only such texts. *)
Fixpoint generates (re : syntax) (bot : bool) (t : string) : Prop :=
  match re with
  | OpEmptyMatch => t = EmptyString
  | OpBeginText => bot = true /\ t = EmptyString
  | OpLiteral c => t = str1 c
  | OpCharClass cl => exists c, class_matches cl c = true /\ t = str1 c
  | OpConcat r1 r2 =>
      exists t1 t2, t = t1 +:+ t2 /\ generates r1 bot t1 /\
                    generates r2 (bot && is_empty t1) t2
  | OpAlternate r1 r2 => generates r1 bot t \/ generates r2 bot t
  | OpQuest r => generates r bot t \/ t = EmptyString
  | OpStar cl => string_forallb (class_matches cl) t = true
  | OpPlus cl => token cl t = true
  | OpCapture _ r => generates r bot t
  end.

(** The longest prefix of bytes that satisfy [p], and what follows it. *)
Fixpoint take_while (p : ascii -> bool) (s : string) : string :=
  match s with
  | String c s' => if p c then String c (take_while p s') else EmptyString
  | EmptyString => EmptyString
  end.

Fixpoint drop_while (p : ascii -> bool) (s : string) : string :=
  match s with
  | String c s' => if p c then drop_while p s' else s
  | EmptyString => EmptyString
  end.

(** The value of a text of decimal digits, as the digit loop of
    [strconv.ParseUint] builds it when nothing overflows. *)
Fixpoint decimal_value_from (n : Z) (s : string) : Z :=
  match s with
  | EmptyString => n
  | String c s' => decimal_value_from (n * 10 + digit_val c) s'
  end.

Definition decimal_value (s : string) : Z := decimal_value_from 0 s.

(** ** The windows of the high-traffic check *)



(** ** White space around a line, and the line of the tests *)

(** The white space of ASCII, and the bytes of ASCII that are not white
    space. *)
Definition ascii_space (c : ascii) : bool :=
  ((9 <=? byte_val c) && (byte_val c <=? 13)) || (byte_val c =? 32).

Definition plain (c : ascii) : bool :=
  (byte_val c <? 128) && negb (ascii_space c).

(** [ends_with p s]: the last byte of [s] exists and satisfies [p]. *)
Definition ends_with (p : ascii -> bool) (s : string) : bool :=
  starts_with p (String.rev s).

(** [writeTestLine] of the tests: the line it writes for a section name,
    [now] being the text of the current time in [commonLogDateFormat]. *)
Definition writeTestLine (now section : string) : string :=
  "238.129.94.11 - - [" +:+ now +:+ "] " +:+ str1 dquote +:+
  "PUT /" +:+ section +:+ "/posts HTTP/1.0" +:+ str1 dquote +:+ " 200 5034 " +:+
  str1 dquote +:+ "http://sanchez-malone.com/faq.php" +:+ str1 dquote +:+ " " +:+
  str1 dquote +:+
  "Mozilla/5.0 (Macintosh; PPC Mac OS X 10_6_8; rv:1.9.6.20) Gecko/2015-06-28 12:08:37 Firefox/3.6.12" +:+
  str1 dquote +:+ newline.

Definition test_fields (now section : string) : clf_fields :=
  {| f_client := "238.129.94.11"; f_ident := "-"; f_user := "-";
     f_timestamp := now; f_method := "PUT";
     f_slash := true; f_seg := section; f_rest := "/posts";
     f_version := "1.0"; f_status := "200"; f_size := "5034";
     f_trailer :=
       " " +:+ str1 dquote +:+ "http://sanchez-malone.com/faq.php" +:+
       str1 dquote +:+ " " +:+ str1 dquote +:+
       "Mozilla/5.0 (Macintosh; PPC Mac OS X 10_6_8; rv:1.9.6.20) Gecko/2015-06-28 12:08:37 Firefox/3.6.12" +:+
       str1 dquote |}.

(** ** The earlier revision of the parser

    The revision of package logger kept beside package syncbytes tests the
    number of submatches, not nil, and ends its message with a newline.
    Its index expressions are modelled with their range check: [None] is
    the panic of an index out of range. *)
Module earlier.

Definition index {A : Type} (matches : list string) (i : nat)
    (k : string -> option A) : option A :=
  match matches !! i with
  | Some x => k x
  | None => None
  end.

Definition parseLineEntry (line : string)
    : option (option commonLogEntry * option error) :=
  let matches := default [] (FindStringSubmatch commonLogFormatRegexp line) in
  if (length matches <? 8)%nat then
    Some (None, Some (errorString
                        ("could not parse line '" +:+ line +:+ "'" +:+ newline)))
  else
    index matches 3 (fun m3 =>
    match time.Parse commonLogDateFormat m3 with
    | inr err => Some (None, Some err)
    | inl time =>
        index matches 7 (fun m7 =>
        match strconv.Atoi m7 with
        | inr err => Some (None, Some err)
        | inl status =>
            index matches 8 (fun m8 =>
            match strconv.Atoi m8 with
            | inr err => Some (None, Some err)
            | inl size =>
                index matches 1 (fun m1 =>
                index matches 2 (fun m2 =>
                index matches 4 (fun m4 =>
                index matches 6 (fun m6 =>
                index matches 5 (fun m5 =>
                Some (Some {| ClientIP := m1; UserID := m2; Time := time;
                              Method := m4; Section := m6; Resource := m5;
                              Status := status; Size := size |}, None))))))
            end)
        end)
    end).

End earlier.

(** * Properties *)

(** ** The high-traffic check *)

Lemma checkHighTraffic_run (now : string) (w : world) :
  let c := config (lg w) in
  let total := totalTraffic (lg w) in
  let flag := isHighTrafficTriggered (lg w) in
  let above := HighTrafficThreshold c <? total in
  checkHighTraffic now w =
  Return tt
    {| lg := {| config := c; sectionHits := sectionHits (lg w);
                totalTraffic := 0; isHighTrafficTriggered := above |};
       output := output w ++
         (if above && negb flag
          then [MsgHighTraffic (hitsPerSecond total (HighTrafficInterval c)) now]
          else if negb above && flag then [MsgResolved now] else []);
       trace := trace w ++
         (if above then
            [EvRead fTotalTraffic; EvRead fIsHighTrafficTriggered] ++
            (if flag then [] else [EvRead fTotalTraffic; EvWrite fIsHighTrafficTriggered]) ++
            [EvRead fTotalTraffic]
          else
            [EvRead fTotalTraffic; EvRead fTotalTraffic; EvRead fIsHighTrafficTriggered] ++
            (if flag then [EvWrite fIsHighTrafficTriggered] else [])) ++
         [EvWrite fTotalTraffic] |}.
Proof.
  destruct w as [[c hits total flag] out tr]; simpl.
  unfold checkHighTraffic, andM, bind, get_config, load_totalTraffic,
    load_isHighTrafficTriggered, ret; simpl.
  destruct (Z.ltb_spec (HighTrafficThreshold c) total) as [Hgt | Hle];
    destruct flag; simpl.
  1, 2: replace (total <=? HighTrafficThreshold c) with false
      by (symmetry; apply Z.leb_gt; lia).
  3, 4: replace (total <=? HighTrafficThreshold c) with true
      by (symmetry; apply Z.leb_le; lia).
  all: simpl; unfold store_totalTraffic, record, with_logger; simpl;
    rewrite <- ?app_assoc; simpl; rewrite ?app_nil_r; reflexivity.
Qed.


(** ** The busiest sections *)

Lemma fold_max_ge_init (vs : list Z) (m0 : Z) : m0 <= fold_left Z.max vs m0.
Proof.
  revert m0; induction vs as [|v vs IH]; intros m0; simpl; [lia|].
  specialize (IH (Z.max m0 v)); lia.
Qed.

Lemma fold_max_ge_elem (vs : list Z) (m0 v : Z) :
  v ∈ vs -> v <= fold_left Z.max vs m0.
Proof.
  revert m0; induction vs as [|v' vs IH]; intros m0 Hin; [by inv Hin|].
  simpl. apply elem_of_cons in Hin as [-> | Hin].
  - pose proof (fold_max_ge_init vs (Z.max m0 v')); lia.
  - by apply IH.
Qed.

Lemma fold_max_attained (vs : list Z) (m0 : Z) :
  fold_left Z.max vs m0 = m0 \/ fold_left Z.max vs m0 ∈ vs.
Proof.
  revert m0; induction vs as [|v vs IH]; intros m0; simpl; [by left|].
  destruct (IH (Z.max m0 v)) as [Heq | Hin].
  - rewrite Heq. destruct (Z.max_spec m0 v) as [[_ ->] | [_ ->]];
      [right; left | by left].
  - right; by right.
Qed.

(** The maximum of a list above a floor is the only value with these
    three properties. *)
Lemma fold_max_unique (vs : list Z) (m0 mx : Z) :
  m0 <= mx -> (forall v, v ∈ vs -> v <= mx) -> (mx = m0 \/ mx ∈ vs) ->
  fold_left Z.max vs m0 = mx.
Proof.
  intros Hfloor Hub Hatt.
  pose proof (fold_max_ge_init vs m0) as Hge.
  assert (fold_left Z.max vs m0 <= mx) as Hle.
  { destruct (fold_max_attained vs m0) as [-> | Hin]; [done | by apply Hub]. }
  destruct Hatt as [-> | Hin]; [lia|].
  pose proof (fold_max_ge_elem vs m0 mx Hin). lia.
Qed.

Lemma busiest_step_cases (m0 : Z) (a0 : list string) (k : string) (v : Z) :
  busiest_step (m0, a0) (k, v) =
  if m0 <? v then (v, [k])
  else if m0 =? v then (m0, a0 ++ [k]) else (m0, a0).
Proof.
  unfold busiest_step. destruct (m0 <? v); [|done].
  by rewrite Z.eqb_refl.
Qed.

(** The loop of [printUpdate] in closed form: the maximum of the counts
    above zero, and the sections that have it, in the order of the visit. *)
Lemma busiest_fold (l : list (string * Z)) (m0 : Z) (a0 : list string) :
  fold_left busiest_step l (m0, a0) =
  let mx := fold_left Z.max (l.*2) m0 in
  (mx, (if mx =? m0 then a0 else []) ++ (filter (fun kv => kv.2 = mx) l).*1).
Proof.
  revert m0 a0; induction l as [|[k v] l IH]; intros m0 a0.
  { simpl. rewrite Z.eqb_refl. by rewrite app_nil_r. }
  change (fold_left busiest_step ((k, v) :: l) (m0, a0))
    with (fold_left busiest_step l (busiest_step (m0, a0) (k, v))).
  change (((k, v) :: l).*2) with (v :: l.*2).
  cbn [fold_left]. cbv zeta.
  pose proof (fold_max_ge_init (l.*2) (Z.max m0 v)) as Hge.
  rewrite busiest_step_cases, filter_cons. cbn [snd].
  destruct (Z.ltb_spec m0 v) as [Hlt | Hnlt].
  - rewrite IH. cbv zeta.
    replace (Z.max m0 v) with v in * by lia.
    set (mx := fold_left Z.max (l.*2) v) in *.
    f_equal.
    destruct (Z.eqb_spec mx m0) as [? | _]; [lia|].
    destruct (Z.eqb_spec mx v) as [Heq | Hne]; case_decide; try congruence;
      reflexivity.
  - destruct (Z.eqb_spec m0 v) as [-> | Hne].
    + rewrite IH. cbv zeta. replace (Z.max v v) with v in * by lia.
      set (mx := fold_left Z.max (l.*2) v) in *.
      f_equal.
      destruct (Z.eqb_spec mx v) as [Heq | Hne']; case_decide; try congruence.
      by rewrite <- app_assoc.
    + rewrite IH. cbv zeta. replace (Z.max m0 v) with m0 in * by lia.
      set (mx := fold_left Z.max (l.*2) m0) in *.
      f_equal. case_decide; [lia | done].
Qed.

Lemma busiest_spec (l : list (string * Z)) :
  busiest l =
  let mx := fold_left Z.max (l.*2) 0 in
  (mx, (filter (fun kv => kv.2 = mx) l).*1).
Proof.
  unfold busiest. rewrite busiest_fold; simpl.
  destruct (_ =? 0); reflexivity.
Qed.



Lemma printUpdate_run (w : world) :
  printUpdate w =
  Return tt
    {| lg := {| config := config (lg w); sectionHits := ∅;
                totalTraffic := totalTraffic (lg w);
                isHighTrafficTriggered := isHighTrafficTriggered (lg w) |};
       output := output w ++
                 [update_message (config (lg w)) (map_to_list (sectionHits (lg w)))];
       trace := trace w ++ [EvLock; EvRead fSectionHits; EvWrite fSectionHits; EvUnlock] |}.
Proof.
  destruct w as [[c hits total flag] out tr].
  unfold printUpdate, bind, Lock, Unlock, load_sectionHits, store_sectionHits,
    get_config, Fprint, record, with_logger; simpl.
  by rewrite <- !app_assoc.
Qed.

Lemma update_message_no_hits (c : Config) (m : gmap string Z) :
  update_message c (map_to_list m) = MsgNoHits <->
  map_Forall (fun _ v => v <= 0) m.
Proof.
  unfold update_message. rewrite busiest_spec; simpl.
  set (mx := fold_left Z.max ((map_to_list m).*2) 0).
  pose proof (fold_max_ge_init ((map_to_list m).*2) 0) as Hge. fold mx in Hge.
  split.
  - destruct (Z.eqb_spec mx 0) as [H0 | Hne]; [intros _ | done].
    intros k v Hkv.
    assert (v ∈ (map_to_list m).*2) as Hin.
    { apply list_elem_of_fmap. exists (k, v). split; [done|].
      by apply elem_of_map_to_list. }
    pose proof (fold_max_ge_elem _ 0 v Hin). fold mx in H. lia.
  - intros Hall.
    assert (mx = 0) as ->; [|done].
    apply fold_max_unique; [lia | | by left].
    intros v Hv. apply list_elem_of_fmap in Hv as [[k v'] [-> Hin]].
    apply elem_of_map_to_list in Hin. by apply (Hall k).
Qed.

(** C9: after any call of [printUpdate] the section counters are the empty
    map, and a second call right after it writes exactly the line
    no hits to server; more generally the first call writes that line
    exactly when no section has a positive count (among which the empty and
    the all-zero map), and it leaves the counters empty in every case. *)
Theorem printUpdate_reset_idempotent (w : world) :
  exists w' m w'',
    printUpdate w = Return tt w' /\
    sectionHits (lg w') = ∅ /\
    output w' = output w ++ [m] /\
    (m = MsgNoHits <-> map_Forall (fun _ v => v <= 0) (sectionHits (lg w))) /\
    printUpdate w' = Return tt w'' /\
    sectionHits (lg w'') = ∅ /\
    output w'' = output w' ++ [MsgNoHits] /\
    render MsgNoHits = "no hits to server" +:+ newline.
Proof.
  rewrite printUpdate_run. eexists _, _, _.
  split; [reflexivity|]. simpl.
  split; [reflexivity|]. split; [reflexivity|].
  split; [apply update_message_no_hits|].
  rewrite printUpdate_run; simpl.
  split; [reflexivity|]. split; [reflexivity|].
  split; [|reflexivity].
  rewrite map_to_list_empty. reflexivity.
Qed.

(** The two decimals of [%0.2f] are those of the nearest hundredth: the
    rounded quotient is within one half of the exact one. *)
Lemma round_half_even_nearest (n d : Z) :
  0 < d -> 0 <= n ->
  Z.abs (2 * n - 2 * d * float64.round_half_even n d) <= d.
Proof.
  intros Hd Hn. unfold float64.round_half_even.
  pose proof (Z.div_mod n d ltac:(lia)) as Hdiv.
  pose proof (Z.mod_pos_bound n d Hd) as Hmod.
  destruct (Z.compare_spec (2 * (n mod d)) d) as [Heq | Hlt | Hgt];
    [destruct (Z.even (n / d))| |]; nia.
Qed.




(** ** The reading loop *)

Lemma parseLineEntry_cases (line : string) :
  (exists e, parseLineEntry line = (Some e, None)) \/
  (exists err, parseLineEntry line = (None, Some err)).
Proof.
  unfold parseLineEntry.
  destruct (FindStringSubmatch _ _) as [matches|]; [|right; eauto].
  destruct (time.Parse _ _); [|right; eauto].
  destruct (strconv.Atoi (matches !!! 7%nat)); [|right; eauto].
  destruct (strconv.Atoi (matches !!! 8%nat)); [|right; eauto].
  left; eauto.
Qed.

(** A line that does not parse: the warning is written, the total is
    incremented, the lock is taken, and reading the section through the
    nil pointer panics. *)
Lemma Run_iteration_parse_error (line : string) (err : error) (w : world) :
  parseLineEntry (bytes.TrimSpace line) = (None, Some err) ->
  Run_iteration line w =
  Panic nilDereference
    {| lg := {| config := config (lg w); sectionHits := sectionHits (lg w);
                totalTraffic := int_wrap (totalTraffic (lg w) + 1);
                isHighTrafficTriggered := isHighTrafficTriggered (lg w) |};
       output := output w ++ [MsgWarning err];
       trace := trace w ++ [EvRead fTotalTraffic; EvWrite fTotalTraffic; EvLock] |}.
Proof.
  intros Hparse. unfold Run_iteration. cbv zeta. rewrite Hparse.
  destruct w as [[c hits total flag] out tr].
  unfold bind, Fprint, load_totalTraffic, store_totalTraffic, Lock, deref,
    record, with_logger; simpl.
  by rewrite <- !app_assoc.
Qed.

Lemma Run_iteration_parse_ok (line : string) (e : commonLogEntry) (w : world) :
  parseLineEntry (bytes.TrimSpace line) = (Some e, None) ->
  Run_iteration line w =
  Return tt
    {| lg := {| config := config (lg w);
                sectionHits :=
                  <[Section e :=
                      int_wrap (default 0 (sectionHits (lg w) !! Section e) + 1)]>
                    (sectionHits (lg w));
                totalTraffic := int_wrap (totalTraffic (lg w) + 1);
                isHighTrafficTriggered := isHighTrafficTriggered (lg w) |};
       output := output w;
       trace := trace w ++
         [EvRead fTotalTraffic; EvWrite fTotalTraffic; EvLock;
          EvRead fSectionHits; EvWrite fSectionHits; EvUnlock] |}.
Proof.
  intros Hparse. unfold Run_iteration. cbv zeta. rewrite Hparse.
  destruct w as [[c hits total flag] out tr].
  unfold bind, ret, load_totalTraffic, store_totalTraffic, Lock, Unlock, deref,
    load_sectionHits, store_sectionHits, record, with_logger; simpl.
  by rewrite <- !app_assoc.
Qed.

(** C1 (the code departs from it): on the line [garbage], which fails to
    parse, the iteration writes its one warning and then goes on to the
    counter update: the running total becomes 1 and the program panics on
    the nil entry, so the lines after it are never read. *)
Theorem Run_malformed_line_counts_then_panics (c : Config) :
  parseLineEntry (bytes.TrimSpace garbage_line) =
    (None, Some (errorString "could not parse line 'garbage'")) /\
  exists w',
    Run_iteration garbage_line (newLogger c) = Panic nilDereference w' /\
    output w' = [MsgWarning (errorString "could not parse line 'garbage'")] /\
    totalTraffic (lg w') = 1 /\
    totalTraffic (lg (newLogger c)) = 0 /\
    Run c (garbage_line +:+ sample_line "/a/b" "12") = Panic nilDereference w'.
Proof.
  assert (parseLineEntry (bytes.TrimSpace garbage_line) =
    (None, Some (errorString "could not parse line 'garbage'"))) as Hparse
    by (vm_compute; reflexivity).
  split; [exact Hparse|].
  eexists. split; [apply (Run_iteration_parse_error _ _ _ Hparse)|].
  cbn [output lg totalTraffic newLogger].
  split; [reflexivity|]. split; [reflexivity|]. split; [reflexivity|].
  unfold Run.
  replace (bytes.readLines EmptyString (garbage_line +:+ sample_line "/a/b" "12"))
    with [garbage_line; sample_line "/a/b" "12"] by (vm_compute; reflexivity).
  cbn [Run_loop]. unfold bind at 1.
  rewrite (Run_iteration_parse_error _ _ _ Hparse). reflexivity.
Qed.

(** C2: there is a line that does not match the pattern, for which
    [parseLineEntry] returns the nil entry, and on which the iteration of
    [Run], from any state, writes the warning, increments the total, takes
    the lock and panics on reading the section through the nil pointer. *)
Theorem Run_dereferences_nil_entry :
  exists line,
    FindStringSubmatch commonLogFormatRegexp (bytes.TrimSpace line) = None /\
    fst (parseLineEntry (bytes.TrimSpace line)) = None /\
    forall w, exists w',
      Run_iteration line w = Panic nilDereference w' /\
      output w' =
        output w ++ [MsgWarning (errorString "could not parse line 'garbage'")] /\
      trace w' = trace w ++ [EvRead fTotalTraffic; EvWrite fTotalTraffic; EvLock].
Proof.
  exists garbage_line.
  split; [vm_compute; reflexivity|].
  split; [vm_compute; reflexivity|].
  intros w. eexists. split.
  - apply Run_iteration_parse_error. vm_compute; reflexivity.
  - split; reflexivity.
Qed.

(** C10 (the code departs from it): the ingestion of a valid line writes
    the running total before it takes the lock, and [checkHighTraffic]
    reads and writes the total and the flag without taking the lock at all;
    only the accesses to the section counters, in the ingestion and in
    [printUpdate], happen with the lock held.  So a check can fall between
    the read and the write of the increment: from a total of 5 the check
    resets it to 0 and the increment then stores 6, where either order of
    the two operations leaves 0 or 1. *)
Theorem total_accessed_without_lock (c : Config) (now : string) :
  trace (final (Run_iteration (sample_line "/a/b" "12") (newLogger c))) =
    [EvRead fTotalTraffic; EvWrite fTotalTraffic; EvLock;
     EvRead fSectionHits; EvWrite fSectionHits; EvUnlock] /\
  guarded false (trace (final (Run_iteration (sample_line "/a/b" "12") (newLogger c))))
    = false /\
  guarded false (trace (final (checkHighTraffic now (newLogger c)))) = false /\
  Forall (fun e => e <> EvLock)
    (trace (final (checkHighTraffic now (newLogger c)))) /\
  guarded false (trace (final (printUpdate (newLogger c)))) = true /\
  totalTraffic (lg (final
    ((n <- load_totalTraffic ;;
      checkHighTraffic now ;;
      store_totalTraffic (int_wrap (n + 1))) (mid_window c 5)))) = 6 /\
  totalTraffic (lg (final
    ((n <- load_totalTraffic ;;
      store_totalTraffic (int_wrap (n + 1)) ;;
      checkHighTraffic now) (mid_window c 5)))) = 0 /\
  totalTraffic (lg (final
    ((checkHighTraffic now ;;
      n <- load_totalTraffic ;;
      store_totalTraffic (int_wrap (n + 1))) (mid_window c 5)))) = 1.
Proof.
  assert (exists e, parseLineEntry (bytes.TrimSpace (sample_line "/a/b" "12")) =
                    (Some e, None)) as [e He]
    by (eexists; vm_compute; reflexivity).
  rewrite (Run_iteration_parse_ok _ _ _ He), checkHighTraffic_run,
    printUpdate_run.
  cbv zeta. cbn [final trace newLogger lg totalTraffic isHighTrafficTriggered].
  split; [reflexivity|]. split; [reflexivity|].
  split; [destruct (HighTrafficThreshold _ <? 0); reflexivity|].
  split; [destruct (HighTrafficThreshold _ <? 0); simpl;
          repeat constructor; discriminate|].
  split; [reflexivity|].
  unfold bind, load_totalTraffic, store_totalTraffic.
  rewrite !checkHighTraffic_run. cbv zeta.
  cbn [final lg totalTraffic mid_window record with_logger].
  split; [reflexivity|]. split; reflexivity.
Qed.

(** ** The two timers *)

(** What one step writes: the reading loop only warnings, [printUpdate]
    only status updates, [checkHighTraffic] only traffic reports; none
    changes the configuration. *)
Lemma fire_output (s : step) (w : world) :
  config (lg (final (fire s w))) = config (lg w) /\
  exists ms,
    output (final (fire s w)) = output w ++ ms /\
    Forall (fun m => match s with
                     | ReadLine _ => is_warning m
                     | UpdateTick => is_status_update m
                     | HighTrafficTick _ => is_traffic_report m
                     end = true) ms.
Proof.
  destruct s as [line | | now]; cbn [fire].
  - destruct (parseLineEntry_cases (bytes.TrimSpace line)) as [[e He] | [err He]].
    + rewrite (Run_iteration_parse_ok _ _ _ He). cbn [final lg config output].
      split; [done|]. exists []. by rewrite app_nil_r.
    + rewrite (Run_iteration_parse_error _ _ _ He). cbn [final lg config output].
      split; [done|]. eexists. split; [done|]. by repeat constructor.
  - rewrite printUpdate_run. cbn [final lg config output].
    split; [done|]. eexists. split; [done|]. repeat constructor.
    unfold update_message. destruct (busiest _) as [mx act].
    by destruct (mx =? 0).
  - rewrite checkHighTraffic_run. cbv zeta. cbn [final lg config output].
    split; [done|]. eexists. split; [done|].
    destruct (_ <? _); destruct (isHighTrafficTriggered _); simpl;
      by repeat constructor.
Qed.

Lemma schedule_disabled (steps : list step) (w : world) (o : outcome unit) :
  schedule steps w = Some o ->
  config (lg (final o)) = config (lg w) /\
  exists ms,
    output (final o) = output w ++ ms /\
    (UpdateInterval (config (lg w)) = 0 ->
       (UpdateTick ∉ steps) /\ Forall (fun m => is_status_update m = false) ms) /\
    (HighTrafficInterval (config (lg w)) = 0 ->
       (forall now, HighTrafficTick now ∉ steps) /\
       Forall (fun m => is_traffic_report m = false) ms).
Proof.
  revert w o; induction steps as [|s steps IH]; intros w o Hrun.
  { simpl in Hrun. injection Hrun as <-. cbn [final]. split; [done|].
    exists []. rewrite app_nil_r. split; [done|].
    split; intros _; (split; [|constructor]); intros; apply not_elem_of_nil. }
  cbn [schedule] in Hrun.
  destruct (ready (watch (config (lg w))) s) eqn:Hready; [|discriminate].
  destruct (fire_output s w) as (Hcfg & ms1 & Hout1 & Hms1).
  assert (schedule steps (final (fire s w)) = Some o \/
          (steps = [] /\ o = fire s w)) as Hnext.
  { destruct (fire s w) as [[] w1 | reason w1] eqn:Hfire.
    - left. exact Hrun.
    - destruct steps; [|discriminate]. injection Hrun as <-.
      right. split; reflexivity. }
  assert (config (lg (final o)) = config (lg w) /\
          exists ms2,
            output (final o) = output w ++ ms1 ++ ms2 /\
            (UpdateInterval (config (lg w)) = 0 ->
               (UpdateTick ∉ steps) /\ Forall (fun m => is_status_update m = false) ms2) /\
            (HighTrafficInterval (config (lg w)) = 0 ->
               (forall now, HighTrafficTick now ∉ steps) /\
               Forall (fun m => is_traffic_report m = false) ms2))
    as (Hcfg' & ms2 & Hout & Hupd & Htraf).
  { destruct Hnext as [Hrest | [-> ->]].
    - destruct (IH _ _ Hrest) as (Hc & ms2 & Ho & Hu & Ht).
      rewrite Hcfg in *. split; [done|]. exists ms2.
      rewrite Ho, Hout1, <- app_assoc. done.
    - split; [done|]. exists []. rewrite app_nil_r.
      split; [done|].
      split; intros _; (split; [|constructor]); intros; apply not_elem_of_nil. }
  split; [done|]. exists (ms1 ++ ms2). split; [done|]. split.
  - intros Hzero. destruct (Hupd Hzero) as [Hnotin Hall].
    destruct s as [line | | now].
    + split; [rewrite not_elem_of_cons; by split|].
      apply Forall_app. split; [|done].
      eapply Forall_impl; [exact Hms1|]. by intros [].
    + exfalso. cbn [ready watch updateTicker highTrafficTicker] in Hready.
      rewrite Hzero in Hready. vm_compute in Hready. discriminate.
    + split; [rewrite not_elem_of_cons; by split|].
      apply Forall_app. split; [|done].
      eapply Forall_impl; [exact Hms1|]. by intros [].
  - intros Hzero. destruct (Htraf Hzero) as [Hnotin Hall].
    destruct s as [line | | now].
    + split; [intros now'; rewrite not_elem_of_cons; by split|].
      apply Forall_app. split; [|done].
      eapply Forall_impl; [exact Hms1|]. by intros [].
    + split; [intros now'; rewrite not_elem_of_cons; by split|].
      apply Forall_app. split; [|done].
      eapply Forall_impl; [exact Hms1|]. by intros [].
    + exfalso. cbn [ready watch updateTicker highTrafficTicker] in Hready.
      rewrite Hzero in Hready. vm_compute in Hready. discriminate.
Qed.

(** [Run] without ticks is one of the executions. *)
Lemma Run_loop_schedule (lines : list string) (w : world) :
  exists n,
    schedule (ReadLine <$> take n lines) w = Some (Run_loop lines w) /\
    match Run_loop lines w with
    | Return _ _ => take n lines = lines
    | Panic _ _ => True
    end.
Proof.
  revert w; induction lines as [|line lines IH]; intros w.
  { exists 0%nat. split; [reflexivity | done]. }
  assert (Run_loop (line :: lines) w =
          match Run_iteration line w with
          | Return _ w1 => Run_loop lines w1
          | Panic reason w1 => Panic reason w1
          end) as -> by reflexivity.
  destruct (Run_iteration line w) as [[] w1 | reason w1] eqn:Hit.
  - destruct (IH w1) as (n & Hn & Hall). exists (S n).
    cbn [take fmap list_fmap schedule ready fire]. rewrite Hit. split; [exact Hn|].
    destruct (Run_loop lines w1); [by rewrite Hall | done].
  - exists 1%nat.
    cbn [take fmap list_fmap schedule ready fire]. rewrite Hit.
    by rewrite take_0.
Qed.

Lemma lines_read_ReadLine (lines : list string) :
  lines_read (ReadLine <$> lines) = lines.
Proof.
  induction lines as [|line lines IH]; [done|].
  unfold lines_read in *. cbn [fmap list_fmap omap list_omap]. by rewrite IH.
Qed.

Lemma Run_execution (c : Config) (input : string) :
  exists steps, execution c input steps (Run c input).
Proof.
  unfold Run.
  destruct (Run_loop_schedule (bytes.readLines EmptyString input) (newLogger c))
    as (n & Hn & Hall).
  exists (ReadLine <$> take n (bytes.readLines EmptyString input)).
  split; [exact Hn|]. rewrite lines_read_ReadLine.
  destruct (Run_loop _ _); [exact Hall | apply prefix_take].
Qed.

(** C6: in every execution of [Run], whatever the input and however the
    steps of the two goroutines interleave, a zero [UpdateInterval] means
    that [printUpdate] is never called and no status update is ever
    written, and a zero [HighTrafficInterval] means that [checkHighTraffic]
    is never called and no traffic report is ever written. *)
Theorem disabled_timer_never_fires (c : Config) (input : string)
    (steps : list step) (o : outcome unit) :
  execution c input steps o ->
  (UpdateInterval c = 0 ->
     (UpdateTick ∉ steps) /\
     Forall (fun m => is_status_update m = false) (output (final o))) /\
  (HighTrafficInterval c = 0 ->
     (forall now, HighTrafficTick now ∉ steps) /\
     Forall (fun m => is_traffic_report m = false) (output (final o))).
Proof.
  intros [Hrun _].
  destruct (schedule_disabled _ _ _ Hrun) as (_ & ms & Hout & Hupd & Htraf).
  cbn [newLogger lg config output app] in *. rewrite Hout.
  split; assumption.
Qed.

Lemma disabled_timer_never_fires_witness :
  exists o,
    execution sample_config (sample_line "/a/b" "12" +:+ garbage_line)
      [ReadLine (sample_line "/a/b" "12"); HighTrafficTick "t1";
       ReadLine garbage_line] o /\
    Forall (fun m => is_status_update m = false) (output (final o)).
Proof.
  eassert (execution sample_config (sample_line "/a/b" "12" +:+ garbage_line)
             [ReadLine (sample_line "/a/b" "12"); HighTrafficTick "t1";
              ReadLine garbage_line]
             (Panic nilDereference _)) as Hexec.
  { split; [vm_compute; reflexivity|]. vm_compute. exists []. reflexivity. }
  eexists. split; [exact Hexec|].
  exact (proj2 (proj1 (disabled_timer_never_fires _ _ _ _ Hexec) eq_refl)).
Defined.

(** ** The pattern on well-formed lines *)

Lemma append_nil (t : string) : EmptyString +:+ t = t.
Proof. reflexivity. Qed.

Lemma append_cons (c : ascii) (s t : string) :
  String c s +:+ t = String c (s +:+ t).
Proof. reflexivity. Qed.

Lemma append_assoc (s1 s2 s3 : string) :
  (s1 +:+ s2) +:+ s3 = s1 +:+ s2 +:+ s3.
Proof.
  induction s1 as [|c s1 IH]; [reflexivity|].
  rewrite !append_cons. by rewrite IH.
Qed.

Lemma append_nil_r (s : string) : s +:+ EmptyString = s.
Proof.
  induction s as [|c s IH]; [reflexivity|].
  rewrite append_cons. by rewrite IH.
Qed.

Lemma star_greedy {R : Type} (p : ascii -> bool) (t s' : string)
    (k : string -> string -> option R) (x : R) :
  string_forallb p t = true -> starts_with p s' = false ->
  k t s' = Some x -> star p (t +:+ s') k = Some x.
Proof.
  revert k; induction t as [|c t IH]; intros k Hall Hstop Hk.
  - rewrite append_nil. destruct s' as [|c' s'']; [exact Hk|].
    cbn [star]. cbn [starts_with] in Hstop. by rewrite Hstop.
  - rewrite append_cons. cbn [star]. cbn [string_forallb] in Hall.
    apply andb_prop in Hall as [-> Hall].
    by rewrite (IH (fun t0 rest => k (String c t0) rest) Hall Hstop Hk).
Qed.

Lemma accepts_begin (s : string) :
  accepts OpBeginText true s EmptyString s id.
Proof. intros R caps k x Hk. exact Hk. Qed.

Lemma accepts_lit (c : ascii) (bot : bool) (s : string) :
  accepts (OpLiteral c) bot (String c s) (str1 c) s id.
Proof. intros R caps k x Hk. cbn [run]. by rewrite Ascii.eqb_refl. Qed.

Lemma accepts_class (cl : class) (bot : bool) (c : ascii) (s : string) :
  class_matches cl c = true ->
  accepts (OpCharClass cl) bot (String c s) (str1 c) s id.
Proof. intros Hc R caps k x Hk. cbn [run]. by rewrite Hc. Qed.

Lemma accepts_star (cl : class) (bot : bool) (t s' : string) :
  string_forallb (class_matches cl) t = true ->
  starts_with (class_matches cl) s' = false ->
  accepts (OpStar cl) bot (t +:+ s') t s' id.
Proof.
  intros Hall Hstop R caps k x Hk. cbn [run].
  by apply (star_greedy _ _ _ (fun t0 rest => k t0 rest caps)).
Qed.

Lemma accepts_plus (cl : class) (bot : bool) (t s' : string) :
  token cl t = true ->
  starts_with (class_matches cl) s' = false ->
  accepts (OpPlus cl) bot (t +:+ s') t s' id.
Proof.
  intros Htok Hstop R caps k x Hk.
  apply andb_prop in Htok as [Hne Hall].
  destruct t as [|c t]; [discriminate|].
  cbn [string_forallb] in Hall. apply andb_prop in Hall as [Hc Hall].
  rewrite append_cons. cbn [run]. rewrite Hc.
  by apply (star_greedy _ _ _ (fun t0 rest => k (String c t0) rest caps)).
Qed.

Lemma accepts_concat (r1 r2 : syntax) (bot : bool) (s t1 s1 t2 s2 : string)
    (u1 u2 : list string -> list string) :
  accepts r1 bot s t1 s1 u1 ->
  accepts r2 (bot && is_empty t1) s1 t2 s2 u2 ->
  accepts (OpConcat r1 r2) bot s (t1 +:+ t2) s2 (fun caps => u2 (u1 caps)).
Proof.
  intros H1 H2 R caps k x Hk. cbn [run].
  apply H1. apply H2. exact Hk.
Qed.

Lemma accepts_capture (n : nat) (r : syntax) (bot : bool) (s t s' : string)
    (u : list string -> list string) :
  accepts r bot s t s' u ->
  accepts (OpCapture n r) bot s t s' (fun caps => <[n:=t]> (u caps)).
Proof. intros H R caps k x Hk. cbn [run]. apply H. exact Hk. Qed.

Lemma accepts_quest (r : syntax) (bot : bool) (s t s' : string)
    (u : list string -> list string) :
  accepts r bot s t s' u -> accepts (OpQuest r) bot s t s' u.
Proof. intros H R caps k x Hk. cbn [run]. by rewrite (H R caps k x Hk). Qed.

Lemma accepts_quest_lit_skip (c0 c : ascii) (bot : bool) (s : string) :
  Ascii.eqb c0 c = false ->
  accepts (OpQuest (OpLiteral c0)) bot (String c s) EmptyString (String c s) id.
Proof. intros Hne R caps k x Hk. cbn [run]. by rewrite Hne. Qed.

Lemma accepts_alternate_l (r1 r2 : syntax) (bot : bool) (s t s' : string)
    (u : list string -> list string) :
  accepts r1 bot s t s' u -> accepts (OpAlternate r1 r2) bot s t s' u.
Proof. intros H R caps k x Hk. cbn [run]. by rewrite (H R caps k x Hk). Qed.

Lemma accepts_alternate_plus_lit (cl : class) (c : ascii) (bot : bool) (s : string) :
  class_matches cl c = false ->
  accepts (OpAlternate (OpPlus cl) (OpLiteral c)) bot (String c s) (str1 c) s id.
Proof.
  intros Hc R caps k x Hk. cbn [run]. by rewrite Hc, Ascii.eqb_refl.
Qed.

Lemma accepts_literal (l : string) (bot : bool) (s : string) :
  accepts (literal l) bot (l +:+ s) l s id.
Proof.
  revert bot; induction l as [|c l IH]; intros bot.
  - intros R caps k x Hk. exact Hk.
  - destruct l as [|c' l'].
    + apply accepts_lit.
    + change (accepts (OpConcat (OpLiteral c) (literal (String c' l'))) bot
                (String c (String c' l' +:+ s)) (str1 c +:+ String c' l') s
                (fun caps => id (id caps))).
      eapply accepts_concat; [apply accepts_lit | apply IH].
Qed.

Lemma segmentByte_not_slash (c : ascii) :
  class_matches segmentByte c = true -> Ascii.eqb "/" c = false.
Proof.
  intros Hc. destruct (Ascii.eqb_spec "/"%char c) as [<- | ?]; [|done].
  vm_compute in Hc. discriminate.
Qed.

(** The request path: group 6 takes the optional slash and the first
    segment, group 5 these and the remainder. *)
Lemma accepts_path (slash : bool) (seg rest s' : string) (bot : bool) :
  token segmentByte seg = true ->
  string_forallb (class_matches pathByte) rest = true ->
  starts_with (class_matches segmentByte) rest = false ->
  starts_with (class_matches segmentByte) s' = false ->
  starts_with (class_matches pathByte) s' = false ->
  let sl := if slash then "/" else EmptyString in
  accepts
    (OpQuest (OpCapture 5 (OpConcat
       (OpCapture 6 (OpConcat (OpQuest (OpLiteral "/")) (OpPlus segmentByte)))
       (OpStar pathByte))))
    bot (sl +:+ seg +:+ rest +:+ s')
    (sl +:+ seg +:+ rest) s'
    (fun caps => <[5%nat := sl +:+ seg +:+ rest]> (<[6%nat := sl +:+ seg]> caps)).
Proof.
  intros Hseg Hrest Hstop1 Hstop2 Hstop3 sl.
  assert (starts_with (class_matches segmentByte) (rest +:+ s') = false) as Hstop.
  { destruct rest; [exact Hstop2 | exact Hstop1]. }
  assert (accepts (OpPlus segmentByte) (bot && is_empty sl)
            (seg +:+ rest +:+ s') seg (rest +:+ s') id) as Hplus
    by (by apply accepts_plus).
  assert (accepts (OpQuest (OpLiteral "/")) bot (sl +:+ seg +:+ rest +:+ s')
            sl (seg +:+ rest +:+ s') id) as Hslash.
  { destruct slash; subst sl.
    - apply accepts_quest, accepts_lit.
    - rewrite append_nil. destruct seg as [|c seg]; [discriminate|].
      rewrite append_cons. apply accepts_quest_lit_skip, segmentByte_not_slash.
      apply andb_prop in Hseg as [_ Hseg]. cbn [string_forallb] in Hseg.
      by apply andb_prop in Hseg as [-> _]. }
  pose proof (accepts_capture 6 _ _ _ _ _ _
                (accepts_concat _ _ _ _ _ _ _ _ _ _ Hslash Hplus)) as H6.
  pose proof (accepts_star pathByte
                (bot && is_empty (sl +:+ seg)) rest s' Hrest Hstop3) as Hstar.
  pose proof (accepts_quest _ _ _ _ _ _ (accepts_capture 5 _ _ _ _ _ _
                (accepts_concat _ _ _ _ _ _ _ _ _ _ H6 Hstar))) as H5.
  intros R caps k x Hk. apply H5. cbn [id].
  rewrite append_assoc. exact Hk.
Qed.

(** The status: three digits, group 7. *)
Lemma accepts_status (status s' : string) (bot : bool) :
  String.length status = 3%nat ->
  string_forallb (class_matches digit) status = true ->
  accepts
    (OpCapture 7 (concat [OpCharClass digit; OpCharClass digit; OpCharClass digit]))
    bot (status +:+ s') status s' (fun caps => <[7%nat := status]> caps).
Proof.
  intros Hlen Hall.
  destruct status as [|d1 [|d2 [|d3 [|? ?]]]]; try discriminate.
  cbn [string_forallb] in Hall.
  apply andb_prop in Hall as [H1 Hall].
  apply andb_prop in Hall as [H2 Hall].
  apply andb_prop in Hall as [H3 _].
  pose proof (accepts_capture 7 _ bot _ _ _ _
    (accepts_concat _ _ _ _ _ _ _ _ _ _ (accepts_class digit bot d1 _ H1)
      (accepts_concat _ _ _ _ _ _ _ _ _ _ (accepts_class digit _ d2 _ H2)
         (accepts_class digit _ d3 s' H3)))) as H.
  intros R caps k x Hk. apply H. exact Hk.
Qed.

(** The size: digits up to the first byte that is not one, or a dash;
    group 8. *)
Lemma accepts_size (size trailer : string) (bot : bool) :
  String.eqb size "-" ||
    token digit size && negb (starts_with (class_matches digit) trailer) = true ->
  accepts (OpCapture 8 (OpAlternate (OpPlus digit) (OpLiteral "-")))
    bot (size +:+ trailer) size trailer (fun caps => <[8%nat := size]> caps).
Proof.
  intros Hsize. apply orb_prop in Hsize as [Hdash | Hdigits].
  - apply String.eqb_eq in Hdash as ->.
    pose proof (accepts_capture 8 _ bot _ _ _ _
      (accepts_alternate_plus_lit digit "-" bot trailer eq_refl)) as H.
    intros R caps k x Hk. apply H. exact Hk.
  - apply andb_prop in Hdigits as [Htok Hstop].
    apply negb_true_iff in Hstop.
    pose proof (accepts_capture 8 _ bot _ _ _ _
      (accepts_alternate_l _ (OpLiteral "-") _ _ _ _ _
         (accepts_plus digit bot size trailer Htok Hstop))) as H.
    intros R caps k x Hk. apply H. exact Hk.
Qed.

Lemma search_first (re : syntax) (bot : bool) (s : string) (m : list string) :
  match_here re bot s = Some m -> search re bot s = Some m.
Proof. intros H. destruct s; cbn [search]; by rewrite H. Qed.

Lemma pathByte_stop (c : ascii) :
  class_matches pathByte c = false ->
  class_matches segmentByte c = false /\ Ascii.eqb "/" c = false.
Proof.
  intros Hc. split.
  - unfold class_matches, pathByte, segmentByte in *. cbn in *.
    destruct (in_range c (" "%char, " "%char)), (in_range c (dquote, dquote)),
      (in_range c ("/"%char, "/"%char)); done.
  - destruct (Ascii.eqb_spec "/"%char c) as [<- | ?]; [|done].
    vm_compute in Hc. discriminate.
Qed.

(** No path: the group takes no part and groups 5 and 6 stay empty. *)
Lemma accepts_no_path (s' : string) (bot : bool) :
  starts_with (class_matches pathByte) s' = false ->
  accepts
    (OpQuest (OpCapture 5 (OpConcat
       (OpCapture 6 (OpConcat (OpQuest (OpLiteral "/")) (OpPlus segmentByte)))
       (OpStar pathByte))))
    bot s' EmptyString s' id.
Proof.
  intros Hstop R caps k x Hk. cbn [run].
  destruct s' as [|c s'']; [exact Hk|].
  cbn [starts_with] in Hstop.
  destruct (pathByte_stop c Hstop) as [-> ->]. exact Hk.
Qed.

(** The whole pattern on a line spelled by its fields, for any path that
    the path group accepts, changing groups 5 and 6 as [upd] does. *)
Lemma line_submatches (client ident user ts method path section ver status
    size trailer : string) (upd : list string -> list string) :
  token notSpace client = true -> token notSpace ident = true ->
  token notSpace user = true -> token notRBracket ts = true ->
  token upper method = true -> token digitDot ver = true ->
  String.length status = 3%nat ->
  string_forallb (class_matches digit) status = true ->
  String.eqb size "-" ||
    token digit size && negb (starts_with (class_matches digit) trailer) = true ->
  (forall bot s',
     starts_with (class_matches segmentByte) s' = false ->
     starts_with (class_matches pathByte) s' = false ->
     accepts
       (OpQuest (OpCapture 5 (OpConcat
          (OpCapture 6 (OpConcat (OpQuest (OpLiteral "/")) (OpPlus segmentByte)))
          (OpStar pathByte))))
       bot (path +:+ s') path s' upd) ->
  (forall a b c d,
     upd [EmptyString; a; b; c; d; EmptyString; EmptyString; EmptyString; EmptyString] =
     [EmptyString; a; b; c; d; path; section; EmptyString; EmptyString]) ->
  exists whole,
    FindStringSubmatch commonLogFormatRegexp
      (client +:+ " " +:+ ident +:+ " " +:+ user +:+
       " [" +:+ ts +:+ "] " +:+ str1 dquote +:+
       method +:+ " " +:+ path +:+ " HTTP/" +:+ ver +:+ str1 dquote +:+
       " " +:+ status +:+ " " +:+ size +:+ trailer) =
    Some [whole; client; user; ts; method; path; section; status; size].
Proof.
  intros Hclient Hident Huser Hts Hmethod Hver Hlen Hstatus Hsize Hpath Hupd.
  match goal with
  | |- exists whole, FindStringSubmatch _ ?line = _ =>
      eassert (accepts commonLogFormatRegexp true line _ trailer _) as Hacc
  end.
  { unfold commonLogFormatRegexp. cbn [concat].
    eapply accepts_concat; [apply accepts_begin|].
    eapply accepts_concat;
      [eapply accepts_capture, accepts_plus; [exact Hclient | reflexivity]|].
    eapply accepts_concat; [apply accepts_literal|].
    eapply accepts_concat; [eapply accepts_plus; [exact Hident | reflexivity]|].
    eapply accepts_concat; [apply accepts_literal|].
    eapply accepts_concat;
      [eapply accepts_capture, accepts_plus; [exact Huser | reflexivity]|].
    eapply accepts_concat; [apply accepts_literal|].
    eapply accepts_concat;
      [eapply accepts_capture, accepts_plus; [exact Hts | reflexivity]|].
    eapply accepts_concat; [apply (accepts_literal "]")|].
    eapply accepts_concat; [apply (accepts_literal " ")|].
    eapply accepts_concat; [apply accepts_lit|].
    eapply accepts_concat;
      [eapply accepts_capture, accepts_plus; [exact Hmethod | reflexivity]|].
    eapply accepts_concat; [apply accepts_literal|].
    eapply accepts_concat; [apply Hpath; reflexivity|].
    eapply accepts_concat; [apply accepts_literal|].
    eapply accepts_concat; [eapply accepts_plus; [exact Hver | reflexivity]|].
    eapply accepts_concat; [apply accepts_lit|].
    eapply accepts_concat; [apply accepts_literal|].
    eapply accepts_concat; [apply (accepts_status status); [exact Hlen | exact Hstatus]|].
    eapply accepts_concat; [apply accepts_literal|].
    apply (accepts_size size trailer). exact Hsize. }
  eexists. unfold FindStringSubmatch. apply search_first.
  unfold match_here. apply Hacc.
  change (replicate (S (numSubexp commonLogFormatRegexp)) EmptyString)
    with (replicate 9 EmptyString).
  cbn [replicate id]. cbn [insert list_insert]. rewrite Hupd. reflexivity.
Qed.

(** On a well-formed line the first path the matcher tries succeeds, and
    the submatches are the fields. *)
Lemma clf_submatches (f : clf_fields) :
  clf_wellformed f = true ->
  exists whole,
    FindStringSubmatch commonLogFormatRegexp (clf_line f) =
    Some [whole; f_client f; f_user f; f_timestamp f; f_method f;
          clf_path f; clf_section f; f_status f; f_size f].
Proof.
  intros Hwf. unfold clf_wellformed in Hwf.
  apply andb_prop in Hwf as [Hwf Hsize].
  apply andb_prop in Hwf as [Hwf Hstatus].
  apply andb_prop in Hwf as [Hwf Hlen].
  apply andb_prop in Hwf as [Hwf Hver].
  apply andb_prop in Hwf as [Hwf Hpath].
  apply andb_prop in Hwf as [Hwf Hmethod].
  apply andb_prop in Hwf as [Hwf Hts].
  apply andb_prop in Hwf as [Hwf Huser].
  apply andb_prop in Hwf as [Hclient Hident].
  apply Nat.eqb_eq in Hlen.
  unfold clf_line.
  apply (line_submatches _ _ _ _ _ _ _ _ _ _ _
           (if is_empty (f_seg f) then id
            else fun caps => <[5%nat := clf_path f]> (<[6%nat := clf_section f]> caps)));
    try assumption.
  - intros bot s' Hstop1 Hstop2. unfold path_wellformed in Hpath.
    unfold clf_path, clf_section.
    apply orb_prop in Hpath as [Hfull | Hnone].
    + apply andb_prop in Hfull as [Hfull Hstop].
      apply andb_prop in Hfull as [Hseg Hrest].
      apply negb_true_iff in Hstop.
      replace (is_empty (f_seg f)) with false
        by (by apply andb_prop in Hseg as [->%negb_true_iff _]).
      rewrite !append_assoc. by apply accepts_path.
    + apply andb_prop in Hnone as [Hnone Hrest].
      apply andb_prop in Hnone as [Hslash Hseg].
      destruct (f_slash f); [discriminate|].
      destruct (f_seg f); [|discriminate].
      destruct (f_rest f); [|discriminate].
      by apply accepts_no_path.
  - intros a b c d. unfold path_wellformed in Hpath.
    unfold clf_path, clf_section.
    destruct (f_seg f) eqn:Hseg; [|reflexivity].
    apply orb_prop in Hpath as [Hfull | Hnone]; [discriminate|].
    apply andb_prop in Hnone as [Hnone Hrest].
    apply andb_prop in Hnone as [Hslash _].
    destruct (f_slash f); [discriminate|].
    destruct (f_rest f); [reflexivity | discriminate].
Qed.

(** ** Errors of the sub-fields *)

Lemma Atoi_error (s : string) (e : error) :
  strconv.Atoi s = inr e -> exists ne, e = NumError "Atoi" s ne.
Proof.
  unfold strconv.Atoi.
  destruct (match s with
            | EmptyString => (false, s)
            | String c s' =>
                if Ascii.eqb c "-" then (true, s')
                else if Ascii.eqb c "+" then (false, s') else (false, s)
            end) as [neg ds].
  destruct (is_empty ds); [intros [= <-]; eauto|].
  destruct (strconv.parseUint 0 ds) as [un | ne]; [|intros [= <-]; eauto].
  destruct (negb neg && (2 ^ 63 <=? un)); [intros [= <-]; eauto|].
  destruct (neg && (2 ^ 63 <? un)); [intros [= <-]; eauto | discriminate].
Qed.

Lemma parseChunks_error (alayout avalue : string)
    (chunks : list (string * option (time.std * string)))
    (value : string) (t : time.Time) (e : error) :
  time.parseChunks alayout avalue chunks value t = inr e ->
  exists le ve msg, e = ParseError alayout avalue le ve msg.
Proof.
  revert value t; induction chunks as [|[prefix o] chunks IH]; intros value t;
    cbn [time.parseChunks]; [discriminate|].
  destruct (time.skip value prefix false) as [value' | v];
    [|intros [= <-]; eauto].
  destruct o as [[el stdstr]|].
  - destruct (time.parseElem el value' t) as [t' value'' | what v |];
      [apply IH | intros [= <-]; eauto | intros [= <-]; eauto].
  - destruct (negb (is_empty value')); [intros [= <-]; eauto|].
    destruct (_ || _); [intros [= <-]; eauto | discriminate].
Qed.

Lemma Parse_error (layout value : string) (e : error) :
  time.Parse layout value = inr e ->
  exists le ve msg, e = ParseError layout value le ve msg.
Proof. apply parseChunks_error. Qed.

Lemma digit_class (c : ascii) :
  class_matches digit c = true ->
  is_digit c = true /\ Ascii.eqb c "-" = false /\ Ascii.eqb c "+" = false /\
  0 <= digit_val c <= 9.
Proof.
  intros Hc.
  assert (is_digit c = true) as Hd.
  { unfold class_matches, digit, in_range in Hc. cbn in Hc.
    rewrite orb_false_r in Hc. exact Hc. }
  split; [exact Hd|].
  split; [|split].
  - destruct (Ascii.eqb_spec c "-") as [-> | ?]; [vm_compute in Hd; discriminate | done].
  - destruct (Ascii.eqb_spec c "+") as [-> | ?]; [vm_compute in Hd; discriminate | done].
  - unfold is_digit in Hd. apply andb_prop in Hd as [H1 H2].
    apply Z.leb_le in H1, H2. unfold digit_val. lia.
Qed.

(** Three digits always convert. *)
Lemma Atoi_status (status : string) :
  String.length status = 3%nat ->
  string_forallb (class_matches digit) status = true ->
  exists n, strconv.Atoi status = inl n /\ 0 <= n <= 999.
Proof.
  intros Hlen Hall.
  destruct status as [|d1 [|d2 [|d3 [|? ?]]]]; try discriminate.
  cbn [string_forallb] in Hall.
  apply andb_prop in Hall as [H1 Hall].
  apply andb_prop in Hall as [H2 Hall].
  apply andb_prop in Hall as [H3 _].
  apply digit_class in H1 as (D1 & M1 & P1 & R1).
  apply digit_class in H2 as (D2 & _ & _ & R2).
  apply digit_class in H3 as (D3 & _ & _ & R3).
  exists ((digit_val d1 * 10 + digit_val d2) * 10 + digit_val d3).
  split; [|lia].
  unfold strconv.Atoi. rewrite M1, P1. cbn [is_empty strconv.parseUint].
  rewrite D1, D2, D3. cbn [negb].
  assert (forall n, 0 <= n < 10000 -> (2 ^ 64 <=? n) = false) as Hsmall
    by (intros n Hn; apply Z.leb_gt; lia).
  rewrite !Hsmall by lia.
  replace (0 * 10 + digit_val d1) with (digit_val d1) by lia.
  assert (forall n, 0 <= n < 10000 -> (2 ^ 63 <=? n) = false) as Hsmall'
    by (intros n Hn; apply Z.leb_gt; lia).
  rewrite Hsmall' by lia. reflexivity.
Qed.

(** What [parseLineEntry] returns on a well-formed line whose timestamp
    parses: the entry built from the fields when the size converts, the
    error of [strconv.Atoi] on the size when it does not. *)
Lemma parseLineEntry_wellformed (f : clf_fields) (tm : time.Time) :
  clf_wellformed f = true ->
  time.Parse commonLogDateFormat (f_timestamp f) = inl tm ->
  exists st,
    strconv.Atoi (f_status f) = inl st /\
    parseLineEntry (clf_line f) =
    match strconv.Atoi (f_size f) with
    | inr err => (None, Some err)
    | inl sz =>
        (Some {| ClientIP := f_client f; UserID := f_user f; Time := tm;
                 Method := f_method f; Section := clf_section f;
                 Resource := clf_path f; Status := st; Size := sz |}, None)
    end.
Proof.
  intros Hwf Htime.
  destruct (clf_submatches f Hwf) as [whole Hm].
  assert (exists st, strconv.Atoi (f_status f) = inl st /\ 0 <= st <= 999)
    as (st & Hst & _).
  { unfold clf_wellformed in Hwf.
    apply andb_prop in Hwf as [Hwf _].
    apply andb_prop in Hwf as [Hwf Hdigits].
    apply andb_prop in Hwf as [_ Hlen].
    apply Nat.eqb_eq in Hlen. by apply Atoi_status. }
  exists st. split; [exact Hst|].
  unfold parseLineEntry. rewrite Hm.
  change ([whole; f_client f; f_user f; f_timestamp f; f_method f;
           clf_path f; clf_section f; f_status f; f_size f] !!! 3%nat)
    with (f_timestamp f).
  rewrite Htime.
  change ([whole; f_client f; f_user f; f_timestamp f; f_method f;
           clf_path f; clf_section f; f_status f; f_size f] !!! 7%nat)
    with (f_status f).
  rewrite Hst.
  change ([whole; f_client f; f_user f; f_timestamp f; f_method f;
           clf_path f; clf_section f; f_status f; f_size f] !!! 8%nat)
    with (f_size f).
  destruct (strconv.Atoi (f_size f)); reflexivity.
Qed.

(** ** The parser *)

(** C3, as amended: on every well-formed line whose timestamp and size
    convert, [parseLineEntry] succeeds; the resource is the whole path and
    the section is the first segment of the path together with the slash
    in front of it when the path has one (the path /section-a/posts gives
    the section /section-a); an empty path gives an empty section. *)
Theorem parseLineEntry_section (f : clf_fields) (tm : time.Time) (sz : Z) :
  clf_wellformed f = true ->
  time.Parse commonLogDateFormat (f_timestamp f) = inl tm ->
  strconv.Atoi (f_size f) = inl sz ->
  exists e,
    parseLineEntry (clf_line f) = (Some e, None) /\
    Resource e = (if f_slash f then "/" else EmptyString) +:+ f_seg f +:+ f_rest f /\
    e.(Section) = (if f_slash f then "/" else EmptyString) +:+ f_seg f.
Proof.
  intros Hwf Htime Hsize.
  destruct (parseLineEntry_wellformed f tm Hwf Htime) as (st & _ & Hparse).
  rewrite Hsize in Hparse. eexists. split; [exact Hparse|].
  split; reflexivity.
Qed.

Lemma parseLineEntry_section_witness :
  exists e,
    parseLineEntry (clf_line (sample_fields "5034")) = (Some e, None) /\
    Resource e = "/section-a/posts" /\
    e.(Section) = "/section-a".
Proof.
  refine (parseLineEntry_section (sample_fields "5034")
    {| time.Year := 2000; time.Month := 10; time.Day := 10; time.Hour := 13;
       time.Minute := 55; time.Sec := 36; time.Nsec := 0;
       time.ZoneOffset := -25200 |} 5034 _ _ _).
  - vm_compute; reflexivity.
  - vm_compute; reflexivity.
  - vm_compute; reflexivity.
Defined.

Example empty_path_empty_section :
  exists e,
    parseLineEntry (bytes.TrimSpace (sample_line EmptyString "12")) = (Some e, None) /\
    Resource e = EmptyString /\ Section e = EmptyString.
Proof. eexists. split; [vm_compute; reflexivity|]. split; reflexivity. Qed.

(** C3 as stated fails: the section of the path /section-a/posts keeps its
    slash, and a line whose path is the single slash does not match the
    pattern at all, so there is no entry and no empty section. *)
Lemma section_keeps_slash_counterexample :
  (exists e,
     parseLineEntry (clf_line (sample_fields "5034")) = (Some e, None) /\
     Resource e = "/section-a/posts" /\
     e.(Section) = "/section-a" /\
     e.(Section) <> "section-a") /\
  FindStringSubmatch commonLogFormatRegexp
    (bytes.TrimSpace (sample_line "/" "5034")) = None /\
  fst (parseLineEntry (bytes.TrimSpace (sample_line "/" "5034"))) = None.
Proof.
  split; [|split; vm_compute; reflexivity].
  eexists. split; [vm_compute; reflexivity|].
  split; [reflexivity|]. split; [reflexivity|]. discriminate.
Qed.

(** C4 (the code departs from it): on every well-formed line whose size
    field is the dash, and whose timestamp parses, the pattern matches and
    [strconv.Atoi] then rejects the dash: [parseLineEntry] returns no
    entry and the syntax error, not an entry of size 0. *)
Theorem parseLineEntry_dash_size_fails (f : clf_fields) (tm : time.Time) :
  clf_wellformed f = true ->
  time.Parse commonLogDateFormat (f_timestamp f) = inl tm ->
  f_size f = "-" ->
  parseLineEntry (clf_line f) = (None, Some (NumError "Atoi" "-" ErrSyntax)).
Proof.
  intros Hwf Htime Hdash.
  destruct (parseLineEntry_wellformed f tm Hwf Htime) as (st & _ & Hparse).
  rewrite Hparse, Hdash. reflexivity.
Qed.

Lemma parseLineEntry_dash_size_fails_witness :
  parseLineEntry (clf_line (sample_fields "-")) =
    (None, Some (NumError "Atoi" "-" ErrSyntax)) /\
  Error (NumError "Atoi" "-" ErrSyntax) =
    "strconv.Atoi: parsing " +:+ str1 dquote +:+ "-" +:+ str1 dquote +:+
    ": invalid syntax".
Proof.
  split; [|reflexivity].
  refine (parseLineEntry_dash_size_fails (sample_fields "-")
    {| time.Year := 2000; time.Month := 10; time.Day := 10; time.Hour := 13;
       time.Minute := 55; time.Sec := 36; time.Nsec := 0;
       time.ZoneOffset := -25200 |} _ _ _).
  - vm_compute; reflexivity.
  - vm_compute; reflexivity.
  - reflexivity.
Defined.

(** ** The text of the warnings *)

Lemma prefix_append (s t : string) : String.prefix s (s +:+ t) = true.
Proof.
  induction s as [|c s IH]; [by destruct t|].
  rewrite append_cons. cbn [String.prefix].
  destruct (ascii_dec c c); [exact IH | done].
Qed.

Lemma contains_append (sub a b : string) :
  contains sub (a +:+ sub +:+ b) = true.
Proof.
  induction a as [|c a IH].
  - rewrite append_nil.
    destruct (sub +:+ b) eqn:E; cbn [contains];
      rewrite <- E, prefix_append; reflexivity.
  - rewrite append_cons. cbn [contains]. rewrite IH. apply orb_true_r.
Qed.

(** C8, as amended: for every line on which parsing fails, the iteration
    writes the warning WARNING: followed by the message of the error and a
    newline.  When the line does not match the pattern the message is
    could not parse line followed by the line in single quotes, so it holds
    the text of the line; when the pattern matched, the error is the one of
    [time.Parse] on the timestamp or of [strconv.Atoi] on the status or the
    size, and its message holds that sub-field in quotes. *)
Theorem parse_failure_warning (line : string) (err : error) (w : world) :
  snd (parseLineEntry (bytes.TrimSpace line)) = Some err ->
  (exists w',
     Run_iteration line w = Panic nilDereference w' /\
     output w' = output w ++ [MsgWarning err]) /\
  render (MsgWarning err) = "WARNING: " +:+ Error err +:+ newline /\
  match FindStringSubmatch commonLogFormatRegexp (bytes.TrimSpace line) with
  | None =>
      Error err = "could not parse line '" +:+ bytes.TrimSpace line +:+ "'" /\
      contains (bytes.TrimSpace line) (Error err) = true
  | Some matches =>
      ((exists le ve msg,
          err = ParseError commonLogDateFormat (matches !!! 3%nat) le ve msg) /\
       contains (time.quote (matches !!! 3%nat)) (Error err) = true) \/
      (exists field ne,
         (field = matches !!! 7%nat \/ field = matches !!! 8%nat) /\
         err = NumError "Atoi" field ne /\
         contains (strconv.Quote field) (Error err) = true)
  end.
Proof.
  intros Herr.
  assert (parseLineEntry (bytes.TrimSpace line) = (None, Some err)) as Hparse.
  { destruct (parseLineEntry_cases (bytes.TrimSpace line)) as [[e He] | [err' He]];
      rewrite He in Herr; cbn [snd] in Herr; [discriminate|].
    injection Herr as ->. exact He. }
  split; [|split; [reflexivity|]].
  { eexists. split; [apply (Run_iteration_parse_error _ _ _ Hparse) | reflexivity]. }
  clear Herr. unfold parseLineEntry in Hparse.
  destruct (FindStringSubmatch _ _) as [matches|].
  - destruct (time.Parse _ _) as [tm | e] eqn:Htime.
    + right.
      destruct (strconv.Atoi (matches !!! 7%nat)) as [st | e] eqn:Hst.
      * destruct (strconv.Atoi (matches !!! 8%nat)) as [sz | e] eqn:Hsz;
          [discriminate|].
        injection Hparse as ->.
        destruct (Atoi_error _ _ Hsz) as [ne ->].
        exists (matches !!! 8%nat), ne. split; [by right|]. split; [done|].
        cbn [Error]. apply (contains_append _ "strconv.Atoi: parsing ").
      * injection Hparse as ->.
        destruct (Atoi_error _ _ Hst) as [ne ->].
        exists (matches !!! 7%nat), ne. split; [by left|]. split; [done|].
        cbn [Error]. apply (contains_append _ "strconv.Atoi: parsing ").
    + left. injection Hparse as ->.
      destruct (Parse_error _ _ _ Htime) as (le & ve & msg & ->).
      split; [eauto|]. cbn [Error].
      destruct (is_empty msg); apply (contains_append _ "parsing time ").
  - injection Hparse as <-. cbn [Error]. split; [reflexivity|].
    apply (contains_append _ "could not parse line '").
Qed.

Lemma parse_failure_warning_witness :
  exists w',
    Run_iteration (sample_line "/a/b" "-") (newLogger sample_config) =
      Panic nilDereference w' /\
    output w' = [MsgWarning (NumError "Atoi" "-" ErrSyntax)].
Proof.
  refine (proj1 (parse_failure_warning (sample_line "/a/b" "-")
    (NumError "Atoi" "-" ErrSyntax) (newLogger sample_config) _)).
  vm_compute; reflexivity.
Defined.

(** C8 as stated fails: on a line whose size is the dash the pattern
    matches, the error is that of [strconv.Atoi] on the size, and its
    message does not hold the text of the line. *)
Lemma subfield_error_omits_line_counterexample :
  exists err,
    parseLineEntry (clf_line (sample_fields "-")) = (None, Some err) /\
    Error err =
      "strconv.Atoi: parsing " +:+ str1 dquote +:+ "-" +:+ str1 dquote +:+
      ": invalid syntax" /\
    contains (clf_line (sample_fields "-")) (Error err) = false.
Proof.
  exists (NumError "Atoi" "-" ErrSyntax).
  split; [vm_compute; reflexivity|]. split; vm_compute; reflexivity.
Qed.

(** * Further properties of the aggregator *)

(** ** Schedules, step by step *)

Lemma schedule_cons_inv (s : step) (steps : list step) (w : world)
    (o : outcome unit) :
  schedule (s :: steps) w = Some o ->
  ready (watch (config (lg w))) s = true /\
  ((exists w1, fire s w = Return tt w1 /\ schedule steps w1 = Some o) \/
   (exists reason w1, fire s w = Panic reason w1 /\ steps = [] /\
                      o = Panic reason w1)).
Proof.
  cbn [schedule]. destruct (ready _ s); [|discriminate].
  intros Hrun. split; [reflexivity|].
  destruct (fire s w) as [[] w1 | reason w1].
  - left. eauto.
  - right. destruct steps; [|discriminate]. injection Hrun as <-. eauto 6.
Qed.

(** Only the reading loop can panic, and it does so exactly on a line that
    does not parse. *)
Lemma fire_panic (s : step) (w : world) (reason : string) (w1 : world) :
  fire s w = Panic reason w1 ->
  exists line, s = ReadLine line /\ section_of line = None.
Proof.
  destruct s as [line | | now]; cbn [fire].
  - intros Hfire. exists line. split; [done|]. unfold section_of.
    destruct (parseLineEntry_cases (bytes.TrimSpace line)) as [[e He] | [err He]].
    + by rewrite (Run_iteration_parse_ok _ _ _ He) in Hfire.
    + by rewrite He.
  - by rewrite printUpdate_run.
  - by rewrite checkHighTraffic_run.
Qed.

Lemma int_wrap_succ (a : Z) : int_wrap (int_wrap a + 1) = int_wrap (a + 1).
Proof.
  unfold int_wrap.
  replace ((a + 2 ^ 63) mod 2 ^ 64 - 2 ^ 63 + 1 + 2 ^ 63)
    with ((a + 2 ^ 63) mod 2 ^ 64 + 1) by lia.
  rewrite Zplus_mod_idemp_l. f_equal. f_equal. lia.
Qed.


Lemma section_of_Some (line sec : string) :
  section_of line = Some sec ->
  exists e, parseLineEntry (bytes.TrimSpace line) = (Some e, None) /\
            e.(Section) = sec.
Proof.
  unfold section_of.
  destruct (parseLineEntry_cases (bytes.TrimSpace line)) as [[e He] | [err He]];
    rewrite He; cbn [fst]; [|discriminate].
  intros [= <-]. eauto.
Qed.

Lemma section_of_None (line : string) :
  section_of line = None ->
  exists err, parseLineEntry (bytes.TrimSpace line) = (None, Some err).
Proof.
  unfold section_of.
  destruct (parseLineEntry_cases (bytes.TrimSpace line)) as [[e He] | [err He]];
    rewrite He; cbn [fst]; [discriminate | eauto].
Qed.

(** The total and the counters after one step, whatever its outcome. *)
Lemma fire_state (s : step) (w : world) :
  totalTraffic (lg (final (fire s w))) = step_total (totalTraffic (lg w)) s /\
  sectionHits (lg (final (fire s w))) = step_hits (sectionHits (lg w)) s.
Proof.
  destruct s as [line | | now]; cbn [fire step_total step_hits].
  - destruct (section_of line) as [sec|] eqn:Hsec.
    + destruct (section_of_Some _ _ Hsec) as (e & He & <-).
      by rewrite (Run_iteration_parse_ok _ _ _ He).
    + destruct (section_of_None _ Hsec) as (err & He).
      by rewrite (Run_iteration_parse_error _ _ _ He).
  - by rewrite printUpdate_run.
  - by rewrite checkHighTraffic_run.
Qed.

Lemma schedule_fold (steps : list step) (w : world) (o : outcome unit) :
  schedule steps w = Some o ->
  totalTraffic (lg (final o)) = fold_left step_total steps (totalTraffic (lg w)) /\
  sectionHits (lg (final o)) = fold_left step_hits steps (sectionHits (lg w)).
Proof.
  revert w; induction steps as [|s steps IH]; intros w Hrun.
  { injection Hrun as <-. done. }
  destruct (fire_state s w) as [Htot Hhits].
  apply schedule_cons_inv in Hrun as [_ [(w1 & Hfire & Hrest) | (r & w1 & Hfire & -> & ->)]];
    rewrite Hfire in Htot, Hhits; cbn [final fold_left] in *.
  - rewrite <- Htot, <- Hhits. by apply IH.
  - done.
Qed.

Lemma since_last_snoc (p : step -> bool) (steps : list step) (s : step) :
  since_last p (steps ++ [s]) = if p s then [] else since_last p steps ++ [s].
Proof. unfold since_last. by rewrite fold_left_app. Qed.

Lemma lines_read_app (l1 l2 : list step) :
  lines_read (l1 ++ l2) = lines_read l1 ++ lines_read l2.
Proof. unfold lines_read. apply omap_app. Qed.


Lemma hits_of_snoc (sec : string) (lines : list string) (line : string) :
  hits_of sec (lines ++ [line]) =
  (hits_of sec lines + if decide (section_of line = Some sec) then 1 else 0)%nat.
Proof.
  unfold hits_of. rewrite filter_app, length_app. f_equal.
  rewrite filter_cons, filter_nil. by case_decide.
Qed.

Lemma counter_succ (n : nat) :
  Some (int_wrap (default 0 (counter n) + 1)) = counter (S n).
Proof.
  unfold counter. destruct n as [|n]; [reflexivity|].
  change (S n =? 0)%nat with false. change (S (S n) =? 0)%nat with false.
  cbv [default from_option id]. rewrite int_wrap_succ. do 2 f_equal. lia.
Qed.

Lemma fold_step_hits (steps : list step) (sec : string) :
  fold_left step_hits steps ∅ !! sec =
  counter (hits_of sec (lines_read (since_last is_update_tick steps))).
Proof.
  induction steps as [|s steps IH] using rev_ind; [apply lookup_empty|].
  rewrite fold_left_app, since_last_snoc. cbn [fold_left].
  destruct s as [line | | now]; cbn [step_hits is_update_tick].
  - rewrite lines_read_app. cbn [lines_read omap list_omap].
    rewrite hits_of_snoc.
    destruct (section_of line) as [sec'|] eqn:Hsec.
    + case_decide as Heq.
      * injection Heq as ->. rewrite lookup_insert_eq, IH.
        rewrite counter_succ. f_equal. lia.
      * rewrite lookup_insert_ne by congruence. rewrite IH. f_equal. lia.
    + case_decide; [discriminate|]. rewrite IH. f_equal. lia.
  - apply lookup_empty.
  - rewrite lines_read_app. cbn [lines_read omap list_omap]. rewrite app_nil_r.
    exact IH.
Qed.

(** ** What is counted in a window *)



(** X11: in every schedule the counter of a section is the number of lines read
    since the last status update whose section it is, reduced to 64 bits,
    and a section without such a line has no entry in the map. *)
Theorem update_window_counts (c : Config) (steps : list step) (o : outcome unit)
    (sec : string) :
  schedule steps (newLogger c) = Some o ->
  sectionHits (lg (final o)) !! sec =
  counter (hits_of sec (lines_read (since_last is_update_tick steps))).
Proof.
  intros Hrun.
  destruct (schedule_fold _ _ _ Hrun) as [_ Hhits].
  cbn [newLogger lg sectionHits] in Hhits. rewrite Hhits.
  apply fold_step_hits.
Qed.

Lemma update_window_counts_witness :
  exists o,
    schedule [ReadLine (sample_line "/a/b" "12"); UpdateTick;
              ReadLine (sample_line "/a/b" "12"); ReadLine (sample_line "/a" "7")]
      (newLogger {| UpdateInterval := time.Second; HighTrafficInterval := 0;
                    HighTrafficThreshold := 0 |}) = Some o /\
    sectionHits (lg (final o)) !! "/a" = Some 2.
Proof.
  eexists. split; [vm_compute; reflexivity|].
  refine (eq_trans (update_window_counts
    {| UpdateInterval := time.Second; HighTrafficInterval := 0;
       HighTrafficThreshold := 0 |}
    [ReadLine (sample_line "/a/b" "12"); UpdateTick;
     ReadLine (sample_line "/a/b" "12"); ReadLine (sample_line "/a" "7")] _ "/a" _) _).
  - vm_compute; reflexivity.
  - vm_compute; reflexivity.
Defined.

(** ** The sequence of traffic reports *)







(** ** How much is written *)





(** ** The lock *)






(** ** The outcome of [Run] *)

Lemma fold_incr (l : list string) (a : Z) :
  fold_left (fun t _ => int_wrap (t + 1)) l (int_wrap a) =
  int_wrap (a + Z.of_nat (length l)).
Proof.
  revert a; induction l as [|x l IH]; intros a.
  { cbn [fold_left length]. f_equal. lia. }
  cbn [fold_left length]. rewrite int_wrap_succ, IH. f_equal. lia.
Qed.

Lemma Run_loop_cons (line : string) (lines : list string) (w : world) :
  Run_loop (line :: lines) w =
  match Run_iteration line w with
  | Return _ w1 => Run_loop lines w1
  | Panic reason w1 => Panic reason w1
  end.
Proof. reflexivity. Qed.

Lemma Run_loop_outcome (lines : list string) (w : world) :
  is_panic (Run_loop lines w) = negb (forallb parses lines) /\
  output (final (Run_loop lines w)) =
    output w ++
    from_option warning_of [] (List.find (fun l => negb (parses l)) lines) /\
  totalTraffic (lg (final (Run_loop lines w))) =
    fold_left (fun t _ => int_wrap (t + 1)) (processed lines) (totalTraffic (lg w)).
Proof.
  revert w; induction lines as [|line lines IH]; intros w.
  { cbn. by rewrite app_nil_r. }
  rewrite Run_loop_cons. cbn [forallb List.find processed].
  destruct (section_of line) as [sec|] eqn:Hsec.
  - assert (parses line = true) as -> by (unfold parses; by rewrite Hsec).
    destruct (section_of_Some _ _ Hsec) as (e & He & _).
    rewrite (Run_iteration_parse_ok _ _ _ He).
    destruct (IH {| lg := {| config := config (lg w);
                sectionHits :=
                  <[e.(Section) :=
                      int_wrap (default 0 (sectionHits (lg w) !! e.(Section)) + 1)]>
                    (sectionHits (lg w));
                totalTraffic := int_wrap (totalTraffic (lg w) + 1);
                isHighTrafficTriggered := isHighTrafficTriggered (lg w) |};
       output := output w;
       trace := trace w ++
         [EvRead fTotalTraffic; EvWrite fTotalTraffic; EvLock;
          EvRead fSectionHits; EvWrite fSectionHits; EvUnlock] |})
      as (Hp & Hout & Htot).
    cbn [negb andb]. split; [exact Hp|]. split; [exact Hout|]. exact Htot.
  - assert (parses line = false) as -> by (unfold parses; by rewrite Hsec).
    destruct (section_of_None _ Hsec) as (err & He).
    rewrite (Run_iteration_parse_error _ _ _ He).
    cbn [is_panic final output lg totalTraffic negb andb from_option
         fold_left].
    unfold warning_of. rewrite He. done.
Qed.

(** X6: [Run] returns exactly when every line of the input parses, and then it
    has written nothing; otherwise it panics, and all it has written is
    the warning for the first line that does not parse.  The lines after
    that one are not processed: the total counts the lines up to and
    including it. *)
Theorem Run_stops_at_first_bad_line (c : Config) (input : string) :
  let lines := bytes.readLines EmptyString input in
  is_panic (Run c input) = negb (forallb parses lines) /\
  output (final (Run c input)) =
    from_option warning_of [] (List.find (fun l => negb (parses l)) lines) /\
  totalTraffic (lg (final (Run c input))) =
    int_wrap (Z.of_nat (length (processed lines))).
Proof.
  cbv zeta. unfold Run.
  destruct (Run_loop_outcome (bytes.readLines EmptyString input) (newLogger c))
    as (Hp & Hout & Htot).
  split; [exact Hp|]. split; [exact Hout|].
  rewrite Htot. cbn [newLogger lg totalTraffic].
  change 0 with (int_wrap 0) at 1. by rewrite fold_incr.
Qed.

(** ** Reading the input *)

Lemma rev_app_spec (s t : string) : String.rev_app s t = String.rev s +:+ t.
Proof.
  revert t; induction s as [|a s IH]; intros t; [reflexivity|].
  change (String.rev_app (String a s) t) with (String.rev_app s (String a t)).
  change (String.rev (String a s)) with (String.rev_app s (String a EmptyString)).
  rewrite (IH (String a t)), (IH (String a EmptyString)).
  by rewrite append_assoc.
Qed.

Lemma rev_cons (a : ascii) (s : string) :
  String.rev (String a s) = String.rev s +:+ str1 a.
Proof. unfold String.rev at 1. cbn [String.rev_app]. apply rev_app_spec. Qed.







(** ** The synchronised buffer *)

Lemma substring_split (n : nat) (s : string) :
  String.substring 0 n s +:+ String.substring n (String.length s - n) s = s.
Proof.
  revert n; induction s as [|a s IH]; intros n.
  - by destruct n.
  - destruct n as [|n].
    + cbn [String.substring String.length]. rewrite append_nil.
      replace (S (String.length s) - 0)%nat with (S (String.length s)) by lia.
      cbn [String.substring]. f_equal.
      specialize (IH 0%nat). cbn [String.substring] in IH.
      destruct s; [reflexivity|]. cbn [String.substring] in IH.
      rewrite append_nil in IH.
      replace (String.length (String a0 s) - 0)%nat
        with (String.length (String a0 s)) in IH by lia. exact IH.
    + cbn [String.substring String.length]. rewrite append_cons. f_equal.
      apply IH.
Qed.

Lemma substring_all (n : nat) (s : string) :
  (String.length s <= n)%nat ->
  String.substring 0 n s = s /\
  String.substring n (String.length s - n) s = EmptyString.
Proof.
  revert n; induction s as [|a s IH]; intros n Hn.
  - by destruct n.
  - destruct n as [|n]; cbn [String.length] in Hn; [lia|].
    destruct (IH n ltac:(lia)) as [H1 H2].
    cbn [String.substring String.length]. split; [by rewrite H1 | exact H2].
Qed.

Lemma written_cons (c : syncbytes.call) (cs : list syncbytes.call) :
  syncbytes.written (c :: cs) = syncbytes.written [c] +:+ syncbytes.written cs.
Proof.
  destruct c; cbn [syncbytes.written]; rewrite ?append_nil; [done| |done|done].
  by rewrite append_assoc, append_nil.
Qed.

Lemma do_call_fifo (c : syncbytes.call) (buf : syncbytes.Buffer) :
  syncbytes.is_reset c = false ->
  fst (syncbytes.do_call c buf) +:+ syncbytes.unread (snd (syncbytes.do_call c buf)) =
  syncbytes.unread buf +:+ syncbytes.written [c].
Proof.
  destruct buf as [s lg0].
  destruct c as [n | p | |]; [| | |discriminate]; intros _;
    unfold syncbytes.do_call, syncbytes.Read, syncbytes.Write,
      syncbytes.String_, syncbytes.locked;
    cbn [syncbytes.unread syncbytes.written].
  - destruct (is_empty s); cbn [fst snd syncbytes.unread].
    + by rewrite append_nil, append_nil_r.
    + by rewrite substring_split, append_nil_r.
  - cbn [fst snd syncbytes.unread]. by rewrite append_nil, append_nil_r.
  - cbn [fst snd syncbytes.unread]. by rewrite append_nil, append_nil_r.
Qed.

Lemma do_calls_cons (c : syncbytes.call) (cs : list syncbytes.call)
    (buf : syncbytes.Buffer) :
  syncbytes.do_calls (c :: cs) buf =
  (fst (syncbytes.do_call c buf) +:+
   fst (syncbytes.do_calls cs (snd (syncbytes.do_call c buf))),
   snd (syncbytes.do_calls cs (snd (syncbytes.do_call c buf)))).
Proof.
  cbn [syncbytes.do_calls]. destruct (syncbytes.do_call c buf) as [got buf'].
  cbn [fst snd]. by destruct (syncbytes.do_calls cs buf').
Qed.

(** X18: without a [Reset] in between, no byte is lost, repeated or reordered:
    from any state of the buffer, the bytes returned by the reads, followed
    by the bytes still unread at the end, are the bytes that were unread at
    the start followed by all the bytes written, in the order of the
    writes; [String] consumes nothing. *)
Theorem Buffer_is_fifo (cs : list syncbytes.call) (buf : syncbytes.Buffer) :
  forallb (fun c => negb (syncbytes.is_reset c)) cs = true ->
  fst (syncbytes.do_calls cs buf) +:+ syncbytes.unread (snd (syncbytes.do_calls cs buf)) =
  syncbytes.unread buf +:+ syncbytes.written cs.
Proof.
  revert buf; induction cs as [|c cs IH]; intros buf Hcs.
  { cbn. by rewrite append_nil_r. }
  cbn [forallb] in Hcs. apply andb_prop in Hcs as [Hc Hcs].
  apply negb_true_iff in Hc.
  rewrite do_calls_cons. cbn [fst snd].
  rewrite append_assoc, (IH _ Hcs), <- append_assoc, (do_call_fifo _ _ Hc).
  by rewrite append_assoc, <- written_cons.
Qed.

Lemma Buffer_is_fifo_witness :
  fst (syncbytes.do_calls
         [syncbytes.CallWrite "abc"; syncbytes.CallRead 2; syncbytes.CallString;
          syncbytes.CallWrite "de"; syncbytes.CallRead 1]
         {| syncbytes.unread := "x"; syncbytes.log := [] |}) +:+
  syncbytes.unread (snd (syncbytes.do_calls
         [syncbytes.CallWrite "abc"; syncbytes.CallRead 2; syncbytes.CallString;
          syncbytes.CallWrite "de"; syncbytes.CallRead 1]
         {| syncbytes.unread := "x"; syncbytes.log := [] |})) =
  "xabcde".
Proof.
  refine (Buffer_is_fifo
    [syncbytes.CallWrite "abc"; syncbytes.CallRead 2; syncbytes.CallString;
     syncbytes.CallWrite "de"; syncbytes.CallRead 1]
    {| syncbytes.unread := "x"; syncbytes.log := [] |} _).
  reflexivity.
Defined.

(** X19: a read that asks for at least as many bytes as are unread returns them
    all with a nil error and leaves the buffer empty; the next read then
    returns nothing, with io.EOF unless it asks for no byte at all; and
    after [Reset] the buffer is in that same drained state whatever it
    held. *)
Theorem Buffer_drained_gives_EOF (buf : syncbytes.Buffer) (n k : nat) :
  (String.length (syncbytes.unread buf) <= n)%nat ->
  is_empty (syncbytes.unread buf) = false ->
  fst (syncbytes.Read n buf) = (syncbytes.unread buf, false) /\
  syncbytes.unread (snd (syncbytes.Read n buf)) = EmptyString /\
  fst (syncbytes.Read k (snd (syncbytes.Read n buf))) =
    (EmptyString, negb (k =? 0)%nat) /\
  fst (syncbytes.Read k (snd (syncbytes.Reset buf))) =
    (EmptyString, negb (k =? 0)%nat).
Proof.
  intros Hn Hne. destruct buf as [s lg0]. cbn [syncbytes.unread] in *.
  unfold syncbytes.Read, syncbytes.Reset, syncbytes.locked.
  cbn [syncbytes.unread]. rewrite Hne.
  destruct (substring_all n s Hn) as [-> ->].
  cbn [fst snd syncbytes.unread is_empty]. done.
Qed.

Lemma Buffer_drained_gives_EOF_witness :
  fst (syncbytes.Read 4 (snd (syncbytes.Read 10
         {| syncbytes.unread := "abc"; syncbytes.log := [] |}))) =
  (EmptyString, true).
Proof.
  refine (proj1 (proj2 (proj2 (Buffer_drained_gives_EOF
    {| syncbytes.unread := "abc"; syncbytes.log := [] |} 10 4 _ _)))).
  - cbn. lia.
  - reflexivity.
Defined.

(** * The lines that the parser accepts *)

Lemma star_sound {R : Type} (p : ascii -> bool) (s : string)
    (k : string -> string -> option R) (x : R) :
  star p s k = Some x ->
  exists t s', s = t +:+ s' /\ string_forallb p t = true /\ k t s' = Some x.
Proof.
  revert k; induction s as [|c s IH]; intros k H; cbn [star] in H.
  - by exists EmptyString, EmptyString.
  - destruct (p c) eqn:Hp; [|by exists EmptyString, (String c s)].
    destruct (star p s _) as [y|] eqn:Hs; [|by exists EmptyString, (String c s)].
    injection H as ->. apply IH in Hs as (t & s' & -> & Ht & Hk).
    exists (String c t), s'. split; [reflexivity|].
    split; [|exact Hk]. cbn [string_forallb]. by rewrite Hp.
Qed.

(** The matcher hands to its continuation a prefix of the input that the
    pattern generates, and the rest of the input. *)
Lemma run_sound {R : Type} (re : syntax) (bot : bool) (s : string)
    (caps : list string) (k : string -> string -> list string -> option R) (x : R) :
  run re bot s caps k = Some x ->
  exists t s' caps', s = t +:+ s' /\ generates re bot t /\ k t s' caps' = Some x.
Proof.
  revert bot s caps k;
    induction re as [ | | c | cl | r1 IH1 r2 IH2 | r1 IH1 r2 IH2 | r IH | cl | cl | n r IH];
    intros bot s caps k H; cbn [run] in H; cbn [generates].
  - by exists EmptyString, s, caps.
  - destruct bot; [|done]. by exists EmptyString, s, caps.
  - destruct s as [|c' s']; [done|]. destruct (Ascii.eqb c c') eqn:Hc; [|done].
    apply Ascii.eqb_eq in Hc as <-. by exists (str1 c), s', caps.
  - destruct s as [|c' s']; [done|].
    destruct (class_matches cl c') eqn:Hc; [|done].
    exists (str1 c'), s', caps. eauto.
  - apply IH1 in H as (t1 & s1 & c1 & -> & H1 & H).
    apply IH2 in H as (t2 & s2 & c2 & -> & H2 & H).
    exists (t1 +:+ t2), s2, c2. split; [by rewrite append_assoc|].
    split; [by exists t1, t2 | exact H].
  - destruct (run r1 bot s caps k) as [y|] eqn:H1.
    + injection H as ->. apply IH1 in H1 as (t & s' & c' & ? & ? & ?). eauto 10.
    + apply IH2 in H as (t & s' & c' & ? & ? & ?). eauto 10.
  - destruct (run r bot s caps k) as [y|] eqn:H1.
    + injection H as ->. apply IH in H1 as (t & s' & c' & ? & ? & ?). eauto 10.
    + exists EmptyString, s, caps. eauto.
  - apply star_sound in H as (t & s' & -> & Ht & Hk). by exists t, s', caps.
  - destruct s as [|c s]; [done|].
    destruct (class_matches cl c) eqn:Hc; [|done].
    apply star_sound in H as (t & s' & -> & Ht & Hk).
    exists (String c t), s', caps. split; [reflexivity|]. split; [|exact Hk].
    unfold token. cbn [is_empty negb andb string_forallb]. by rewrite Hc.
  - apply IH in H as (t & s' & c' & -> & Hg & Hk). by exists t, s', (<[n:=t]> c').
Qed.

Lemma search_unfold (re : syntax) (bot : bool) (s : string) :
  search re bot s =
  match match_here re bot s with
  | Some m => Some m
  | None =>
      match s with
      | String _ s' => search re false s'
      | EmptyString => None
      end
  end.
Proof. by destruct s. Qed.

(** The pattern starts with the beginning of the text: it matches at the
    first position or nowhere. *)
Lemma search_anchored (s : string) : search commonLogFormatRegexp false s = None.
Proof.
  induction s as [|c s IH]; rewrite search_unfold.
  - reflexivity.
  - rewrite IH. reflexivity.
Qed.

Lemma generates_literal (s : string) (bot : bool) (t : string) :
  generates (literal s) bot t -> t = s.
Proof.
  revert bot t; induction s as [|c s IH]; intros bot t H; [exact H|].
  destruct s as [|c' s']; [exact H|].
  change (literal (String c (String c' s')))
    with (OpConcat (OpLiteral c) (literal (String c' s'))) in H.
  cbn [generates] in H. destruct H as (t1 & t2 & -> & -> & H).
  apply IH in H as ->. reflexivity.
Qed.

Lemma forallb_append (p : ascii -> bool) (s t : string) :
  string_forallb p (s +:+ t) = string_forallb p s && string_forallb p t.
Proof.
  induction s as [|c s IH]; [reflexivity|].
  rewrite append_cons. cbn [string_forallb]. by rewrite IH, andb_assoc.
Qed.

Lemma take_drop_while (p : ascii -> bool) (s : string) :
  take_while p s +:+ drop_while p s = s.
Proof.
  induction s as [|c s IH]; [reflexivity|].
  cbn [take_while drop_while]. destruct (p c); [|reflexivity].
  by rewrite append_cons, IH.
Qed.

Lemma take_while_forallb (p : ascii -> bool) (s : string) :
  string_forallb p (take_while p s) = true.
Proof.
  induction s as [|c s IH]; [reflexivity|].
  cbn [take_while]. destruct (p c) eqn:Hp; [|reflexivity].
  cbn [string_forallb]. by rewrite Hp.
Qed.

Lemma drop_while_forallb (p q : ascii -> bool) (s : string) :
  string_forallb q s = true -> string_forallb q (drop_while p s) = true.
Proof.
  induction s as [|c s IH]; [done|].
  cbn [string_forallb drop_while]. intros [Hc Hs]%andb_prop.
  destruct (p c); [by apply IH|]. cbn [string_forallb]. by rewrite Hc, Hs.
Qed.

Lemma drop_while_stops (p : ascii -> bool) (s : string) :
  starts_with p (drop_while p s) = false.
Proof.
  induction s as [|c s IH]; [reflexivity|].
  cbn [drop_while]. destruct (p c) eqn:Hp; [exact IH|]. exact Hp.
Qed.

Lemma token_append (cl : class) (s t : string) :
  token cl s = true -> string_forallb (class_matches cl) t = true ->
  token cl (s +:+ t) = true.
Proof.
  unfold token. intros [Hne Hs]%andb_prop Ht.
  rewrite forallb_append, Hs, Ht.
  destruct s; [discriminate|reflexivity].
Qed.

Lemma pattern_generates (t : string) :
  generates commonLogFormatRegexp true t ->
  exists client ident user ts method path ver status size,
    t = client +:+ " " +:+ ident +:+ " " +:+ user +:+
        " [" +:+ ts +:+ "] " +:+ str1 dquote +:+
        method +:+ " " +:+ path +:+ " HTTP/" +:+ ver +:+ str1 dquote +:+
        " " +:+ status +:+ " " +:+ size /\
    token notSpace client = true /\ token notSpace ident = true /\
    token notSpace user = true /\ token notRBracket ts = true /\
    token upper method = true /\
    (path = EmptyString \/
     exists (sl : bool) seg rest,
       path = (if sl then "/" else EmptyString) +:+ seg +:+ rest /\
       token segmentByte seg = true /\
       string_forallb (class_matches pathByte) rest = true) /\
    token digitDot ver = true /\
    String.length status = 3%nat /\
    string_forallb (class_matches digit) status = true /\
    (token digit size = true \/ size = "-").
Proof.
  unfold commonLogFormatRegexp. cbn [concat generates]. intros H.
  destruct H as (? & ? & -> & [_ ->] & H).
  destruct H as (client & ? & -> & Hclient & H).
  destruct H as (? & ? & -> & ->%generates_literal & H).
  destruct H as (ident & ? & -> & Hident & H).
  destruct H as (? & ? & -> & ->%generates_literal & H).
  destruct H as (user & ? & -> & Huser & H).
  destruct H as (? & ? & -> & ->%generates_literal & H).
  destruct H as (ts & ? & -> & Hts & H).
  destruct H as (? & ? & -> & ->%generates_literal & H).
  destruct H as (? & ? & -> & ->%generates_literal & H).
  destruct H as (? & ? & -> & -> & H).
  destruct H as (method & ? & -> & Hmethod & H).
  destruct H as (? & ? & -> & ->%generates_literal & H).
  destruct H as (path & ? & -> & Hpath & H).
  destruct H as (? & ? & -> & ->%generates_literal & H).
  destruct H as (ver & ? & -> & Hver & H).
  destruct H as (? & ? & -> & -> & H).
  destruct H as (? & ? & -> & ->%generates_literal & H).
  destruct H as (status & ? & -> & Hstatus & H).
  destruct H as (? & size & -> & ->%generates_literal & Hsize).
  exists client, ident, user, ts, method, path, ver, status, size.
  split; [reflexivity|].
  do 5 (split; [assumption|]).
  split.
  { destruct Hpath as [(t1 & rest & -> & (sl0 & seg & -> & Hsl & Hseg) & Hrest) | ->];
      [right | by left].
    exists (bool_decide (sl0 = "/")), seg, rest. split; [|done].
    rewrite append_assoc. destruct Hsl as [-> | ->]; reflexivity. }
  split; [assumption|].
  split.
  { destruct Hstatus as (? & ? & -> & (a & _ & ->) & ? & ? & -> & (b & _ & ->) & c & _ & ->).
    reflexivity. }
  split.
  { destruct Hstatus as (? & ? & -> & (a & Ha & ->) & ? & ? & -> & (b & Hb & ->) & c & Hc & ->).
    change (str1 a +:+ str1 b +:+ str1 c) with (String a (String b (String c EmptyString))). cbn [string_forallb]. by rewrite Ha, Hb, Hc. }
  exact Hsize.
Qed.

Lemma path_resplit (path : string) :
  (path = EmptyString \/
   exists (sl : bool) seg rest,
     path = (if sl then "/" else EmptyString) +:+ seg +:+ rest /\
     token segmentByte seg = true /\
     string_forallb (class_matches pathByte) rest = true) ->
  exists (sl : bool) seg rest,
    path = (if sl then "/" else EmptyString) +:+ seg +:+ rest /\
    (token segmentByte seg &&
     string_forallb (class_matches pathByte) rest &&
     negb (starts_with (class_matches segmentByte) rest)) ||
    (negb sl && is_empty seg && is_empty rest) = true.
Proof.
  intros [-> | (sl & seg & rest & -> & Hseg & Hrest)].
  { exists false, EmptyString, EmptyString. split; [reflexivity|]. apply orb_true_r. }
  exists sl, (seg +:+ take_while (class_matches segmentByte) rest),
    (drop_while (class_matches segmentByte) rest).
  split.
  { by rewrite append_assoc, take_drop_while. }
  rewrite (token_append _ _ _ Hseg (take_while_forallb _ _)).
  rewrite (drop_while_forallb _ _ _ Hrest), drop_while_stops. reflexivity.
Qed.

Lemma size_resplit (size s' : string) :
  (token digit size = true \/ size = "-") ->
  exists size' trailer,
    size +:+ s' = size' +:+ trailer /\
    String.eqb size' "-" ||
    token digit size' && negb (starts_with (class_matches digit) trailer) = true.
Proof.
  intros [Hsize | ->].
  - exists (size +:+ take_while (class_matches digit) s'),
      (drop_while (class_matches digit) s').
    split; [by rewrite append_assoc, take_drop_while|].
    rewrite (token_append _ _ _ Hsize (take_while_forallb _ _)), drop_while_stops.
    apply orb_true_r.
  - exists "-", s'. done.
Qed.

(** The pattern matches exactly the well-formed lines: a match comes with
    fields that spell the line, and its submatches are those fields. *)
Lemma FindStringSubmatch_wellformed (line : string) (m : list string) :
  FindStringSubmatch commonLogFormatRegexp line = Some m ->
  exists f whole,
    clf_wellformed f = true /\ line = clf_line f /\
    m = [whole; f_client f; f_user f; f_timestamp f; f_method f;
         clf_path f; clf_section f; f_status f; f_size f].
Proof.
  intros Hm.
  assert (exists f, clf_wellformed f = true /\ line = clf_line f) as (f & Hwf & ->).
  { unfold FindStringSubmatch in Hm. rewrite search_unfold in Hm.
    destruct (match_here commonLogFormatRegexp true line) as [m'|] eqn:Hhere.
    2:{ destruct line; [done|]. by rewrite search_anchored in Hm. }
    apply run_sound in Hhere as (t & s' & caps' & -> & Hgen & _).
    apply pattern_generates in Hgen
      as (client & ident & user & ts & method & path & ver & status & size &
          -> & Hclient & Hident & Huser & Hts & Hmethod & Hpath & Hver &
          Hlen & Hstatus & Hsize).
    apply path_resplit in Hpath as (sl & seg & rest & -> & Hpath).
    apply (size_resplit _ s') in Hsize as (size' & trailer & Heq & Hsize).
    exists {| f_client := client; f_ident := ident; f_user := user;
              f_timestamp := ts; f_method := method; f_slash := sl;
              f_seg := seg; f_rest := rest; f_version := ver;
              f_status := status; f_size := size'; f_trailer := trailer |}.
    split.
    - unfold clf_wellformed, path_wellformed.
      cbn [f_client f_ident f_user f_timestamp f_method f_slash f_seg f_rest
           f_version f_status f_size f_trailer].
      rewrite Hclient, Hident, Huser, Hts, Hmethod, Hpath, Hver, Hlen, Hstatus, Hsize.
      reflexivity.
    - unfold clf_line, clf_path.
      cbn [f_client f_ident f_user f_timestamp f_method f_slash f_seg f_rest
           f_version f_status f_size f_trailer].
      rewrite <- Heq. rewrite !append_assoc. reflexivity. }
  destruct (clf_submatches f Hwf) as [whole Hf].
  rewrite Hf in Hm. injection Hm as <-. by exists f, whole.
Qed.

Lemma decimal_value_from_ge (n : Z) (s : string) :
  string_forallb (class_matches digit) s = true -> 0 <= n ->
  n <= decimal_value_from n s.
Proof.
  revert n; induction s as [|c s IH]; intros n Hs Hn; cbn [decimal_value_from]; [lia|].
  cbn [string_forallb] in Hs. apply andb_prop in Hs as [Hc Hs].
  destruct (digit_class c Hc) as (_ & _ & _ & Hd).
  specialize (IH (n * 10 + digit_val c) Hs ltac:(lia)). lia.
Qed.

Lemma parseUint_digits (n : Z) (s : string) :
  string_forallb (class_matches digit) s = true -> 0 <= n < 2 ^ 64 ->
  strconv.parseUint n s =
  if decimal_value_from n s <? 2 ^ 64 then inl (decimal_value_from n s)
  else inr ErrRange.
Proof.
  revert n; induction s as [|c s IH]; intros n Hs Hn;
    cbn [strconv.parseUint decimal_value_from].
  { destruct (Z.ltb_spec n (2 ^ 64)); [reflexivity | lia]. }
  cbn [string_forallb] in Hs. apply andb_prop in Hs as [Hc Hs].
  destruct (digit_class c Hc) as (-> & _ & _ & Hd). cbn [negb].
  destruct (Z.leb_spec (2 ^ 64) (n * 10 + digit_val c)) as [Hbig | Hsmall].
  - pose proof (decimal_value_from_ge (n * 10 + digit_val c) s Hs ltac:(lia)).
    destruct (Z.ltb_spec (decimal_value_from (n * 10 + digit_val c) s) (2 ^ 64));
      [lia | reflexivity].
  - apply IH; [exact Hs | lia].
Qed.

(** [Atoi] on a text of digits: its decimal value when that is below
    2^63, the range error otherwise. *)
Lemma Atoi_digits (s : string) :
  token digit s = true ->
  strconv.Atoi s =
  if decimal_value s <? 2 ^ 63 then inl (decimal_value s)
  else inr (NumError "Atoi" s ErrRange).
Proof.
  unfold token. intros [Hne Hs]%andb_prop.
  destruct s as [|c s]; [discriminate|].
  pose proof Hs as Hs'. cbn [string_forallb] in Hs'. apply andb_prop in Hs' as [Hc _].
  destruct (digit_class c Hc) as (_ & Hm & Hp & _).
  unfold strconv.Atoi. rewrite Hm, Hp. cbn [is_empty].
  rewrite (parseUint_digits 0 _ Hs) by lia. fold (decimal_value (String c s)).
  pose proof (decimal_value_from_ge 0 _ Hs ltac:(lia)) as Hge.
  fold (decimal_value (String c s)) in Hge.
  destruct (Z.ltb_spec (decimal_value (String c s)) (2 ^ 64)) as [H64 | H64].
  - cbn [negb andb].
    destruct (Z.leb_spec (2 ^ 63) (decimal_value (String c s)));
      destruct (Z.ltb_spec (decimal_value (String c s)) (2 ^ 63)); try lia; reflexivity.
  - destruct (Z.ltb_spec (decimal_value (String c s)) (2 ^ 63)); [lia | reflexivity].
Qed.

Lemma decimal_value_status (s : string) :
  String.length s = 3%nat -> string_forallb (class_matches digit) s = true ->
  0 <= decimal_value s <= 999.
Proof.
  intros Hlen Hall.
  destruct s as [|d1 [|d2 [|d3 [|? ?]]]]; try discriminate.
  cbn [string_forallb] in Hall.
  apply andb_prop in Hall as [H1 Hall].
  apply andb_prop in Hall as [H2 Hall].
  apply andb_prop in Hall as [H3 _].
  apply digit_class in H1 as (_ & _ & _ & R1).
  apply digit_class in H2 as (_ & _ & _ & R2).
  apply digit_class in H3 as (_ & _ & _ & R3).
  unfold decimal_value. cbn [decimal_value_from]. lia.
Qed.

Lemma token_status (s : string) :
  String.length s = 3%nat -> string_forallb (class_matches digit) s = true ->
  token digit s = true.
Proof. intros Hlen Hs. unfold token. rewrite Hs. by destruct s. Qed.

Lemma clf_wellformed_inv (f : clf_fields) :
  clf_wellformed f = true ->
  token notSpace (f_client f) = true /\ token notSpace (f_ident f) = true /\
  token notSpace (f_user f) = true /\ token notRBracket (f_timestamp f) = true /\
  token upper (f_method f) = true /\ path_wellformed f = true /\
  token digitDot (f_version f) = true /\
  String.length (f_status f) = 3%nat /\
  string_forallb (class_matches digit) (f_status f) = true /\
  (f_size f = "-" \/
   token digit (f_size f) = true /\
   starts_with (class_matches digit) (f_trailer f) = false).
Proof.
  intros Hwf. unfold clf_wellformed in Hwf.
  apply andb_prop in Hwf as [Hwf Hsize].
  apply andb_prop in Hwf as [Hwf Hstatus].
  apply andb_prop in Hwf as [Hwf Hlen].
  apply andb_prop in Hwf as [Hwf Hver].
  apply andb_prop in Hwf as [Hwf Hpath].
  apply andb_prop in Hwf as [Hwf Hmethod].
  apply andb_prop in Hwf as [Hwf Hts].
  apply andb_prop in Hwf as [Hwf Huser].
  apply andb_prop in Hwf as [Hclient Hident].
  apply Nat.eqb_eq in Hlen.
  do 9 (split; [assumption|]).
  apply orb_prop in Hsize as [Hdash | [Hd Ht]%andb_prop].
  - left. by apply String.eqb_eq.
  - right. split; [exact Hd|]. by apply negb_true_iff.
Qed.

(** What [parseLineEntry] returns on a well-formed line, in full. *)
Lemma parseLineEntry_clf (f : clf_fields) :
  clf_wellformed f = true ->
  parseLineEntry (clf_line f) =
  match time.Parse commonLogDateFormat (f_timestamp f) with
  | inr err => (None, Some err)
  | inl tm =>
      if String.eqb (f_size f) "-"
      then (None, Some (NumError "Atoi" "-" ErrSyntax))
      else if decimal_value (f_size f) <? 2 ^ 63
      then (Some {| ClientIP := f_client f; UserID := f_user f; Time := tm;
                    Method := f_method f; Section := clf_section f;
                    Resource := clf_path f;
                    Status := decimal_value (f_status f);
                    Size := decimal_value (f_size f) |}, None)
      else (None, Some (NumError "Atoi" (f_size f) ErrRange))
  end.
Proof.
  intros Hwf. destruct (clf_submatches f Hwf) as [whole Hm].
  destruct (clf_wellformed_inv f Hwf)
    as (_ & _ & _ & _ & _ & _ & _ & Hlen & Hstatus & Hsize).
  unfold parseLineEntry. rewrite Hm.
  change ([whole; f_client f; f_user f; f_timestamp f; f_method f;
           clf_path f; clf_section f; f_status f; f_size f] !!! 3%nat)
    with (f_timestamp f).
  destruct (time.Parse _ _) as [tm | err]; [|reflexivity].
  change ([whole; f_client f; f_user f; f_timestamp f; f_method f;
           clf_path f; clf_section f; f_status f; f_size f] !!! 7%nat)
    with (f_status f).
  change ([whole; f_client f; f_user f; f_timestamp f; f_method f;
           clf_path f; clf_section f; f_status f; f_size f] !!! 8%nat)
    with (f_size f).
  rewrite (Atoi_digits (f_status f) (token_status _ Hlen Hstatus)).
  pose proof (decimal_value_status _ Hlen Hstatus) as Hst.
  destruct (Z.ltb_spec (decimal_value (f_status f)) (2 ^ 63)) as [_ | ?]; [|lia].
  destruct Hsize as [-> | [Hsize _]]; [reflexivity|].
  assert (String.eqb (f_size f) "-" = false) as ->.
  { apply String.eqb_neq. intros Heq. rewrite Heq in Hsize. discriminate. }
  rewrite (Atoi_digits _ Hsize).
  by destruct (decimal_value (f_size f) <? 2 ^ 63).
Qed.

Lemma FindStringSubmatch_anchored (line : string) (m : list string) :
  FindStringSubmatch commonLogFormatRegexp line = Some m ->
  exists t rest caps, line = t +:+ rest /\ m = <[0%nat:=t]> caps.
Proof.
  intros Hm. unfold FindStringSubmatch in Hm. rewrite search_unfold in Hm.
  destruct (match_here commonLogFormatRegexp true line) as [m'|] eqn:Hhere.
  2:{ destruct line; [done|]. by rewrite search_anchored in Hm. }
  injection Hm as ->.
  apply run_sound in Hhere as (t & s' & caps' & -> & _ & [= <-]).
  by exists t, s', caps'.
Qed.

Lemma parseLineEntry_Some_inv (line : string) (e : commonLogEntry) :
  parseLineEntry line = (Some e, None) ->
  exists f tm,
    clf_wellformed f = true /\ line = clf_line f /\
    time.Parse commonLogDateFormat (f_timestamp f) = inl tm /\
    token digit (f_size f) = true /\ decimal_value (f_size f) < 2 ^ 63 /\
    e = {| ClientIP := f_client f; UserID := f_user f; Time := tm;
           Method := f_method f; Section := clf_section f;
           Resource := clf_path f;
           Status := decimal_value (f_status f);
           Size := decimal_value (f_size f) |}.
Proof.
  intros Hparse.
  destruct (FindStringSubmatch commonLogFormatRegexp line) as [m|] eqn:Hm.
  2:{ unfold parseLineEntry in Hparse. by rewrite Hm in Hparse. }
  apply FindStringSubmatch_wellformed in Hm as (f & whole & Hwf & -> & _).
  rewrite (parseLineEntry_clf f Hwf) in Hparse.
  destruct (clf_wellformed_inv f Hwf)
    as (_ & _ & _ & _ & _ & _ & _ & _ & _ & Hsize).
  destruct (time.Parse _ _) as [tm | err] eqn:Htime; [|discriminate].
  destruct (String.eqb (f_size f) "-") eqn:Hdash; [discriminate|].
  destruct (Z.ltb_spec (decimal_value (f_size f)) (2 ^ 63)) as [Hlt | ?];
    [|discriminate].
  injection Hparse as <-. exists f, tm.
  destruct Hsize as [Heq | [Hsize _]].
  { rewrite Heq in Hdash. discriminate. }
  done.
Qed.

(** X1: [parseLineEntry] returns an entry exactly on the well-formed lines
    whose timestamp parses and whose size field is a text of digits of
    value below 2^63; the entry holds the fields of the line, the status
    and the size by their decimal values. *)
Theorem parseLineEntry_succeeds_iff (line : string) (e : commonLogEntry) :
  parseLineEntry line = (Some e, None) <->
  exists f tm,
    clf_wellformed f = true /\ line = clf_line f /\
    time.Parse commonLogDateFormat (f_timestamp f) = inl tm /\
    token digit (f_size f) = true /\ decimal_value (f_size f) < 2 ^ 63 /\
    e = {| ClientIP := f_client f; UserID := f_user f; Time := tm;
           Method := f_method f; Section := clf_section f;
           Resource := clf_path f;
           Status := decimal_value (f_status f);
           Size := decimal_value (f_size f) |}.
Proof.
  split; [apply parseLineEntry_Some_inv|].
  intros (f & tm & Hwf & -> & Htime & Hsize & Hlt & ->).
  rewrite (parseLineEntry_clf f Hwf), Htime.
  assert (String.eqb (f_size f) "-" = false) as ->.
  { apply String.eqb_neq. intros Heq. rewrite Heq in Hsize. discriminate. }
  by destruct (Z.ltb_spec (decimal_value (f_size f)) (2 ^ 63)); [|lia].
Qed.

Lemma parseLineEntry_succeeds_iff_witness :
  exists f tm,
    clf_wellformed f = true /\
    sample_line "/a/b" "12" = clf_line f /\
    time.Parse commonLogDateFormat (f_timestamp f) = inl tm /\
    token digit (f_size f) = true /\ decimal_value (f_size f) < 2 ^ 63 /\
    {| ClientIP := "238.129.94.11"; UserID := "-";
       Time := {| time.Year := 2000; time.Month := 10; time.Day := 10;
                  time.Hour := 13; time.Minute := 55; time.Sec := 36;
                  time.Nsec := 0; time.ZoneOffset := -25200 |};
       Method := "GET"; Section := "/a"; Resource := "/a/b";
       Status := 200; Size := 12 |} =
    {| ClientIP := f_client f; UserID := f_user f; Time := tm;
       Method := f_method f; Section := clf_section f;
       Resource := clf_path f;
       Status := decimal_value (f_status f);
       Size := decimal_value (f_size f) |}.
Proof.
  refine (proj1 (parseLineEntry_succeeds_iff (sample_line "/a/b" "12") _) _).
  vm_compute; reflexivity.
Defined.

Lemma slash_only (c : ascii) :
  class_matches pathByte c = true -> class_matches segmentByte c = false ->
  c = "/"%char.
Proof.
  destruct c as [[] [] [] [] [] [] [] []]; vm_compute; intros; congruence.
Qed.

(** X3: every entry that [parseLineEntry] returns has a status between 0 and
    999 and a size between 0 and 2^63 - 1; its section is a prefix of its
    resource, holds a slash at most as its first byte and no space or
    quote, and what the resource has after the section is empty or starts
    with a slash; the section is empty only when the resource is. *)
Theorem parsed_entry_invariants (line : string) (e : commonLogEntry) :
  parseLineEntry line = (Some e, None) ->
  0 <= Status e <= 999 /\ 0 <= Size e < 2 ^ 63 /\
  exists (sl : bool) seg rest,
    e.(Section) = (if sl then "/" else EmptyString) +:+ seg /\
    Resource e = e.(Section) +:+ rest /\
    string_forallb (class_matches segmentByte) seg = true /\
    (rest = EmptyString \/ exists rest', rest = String "/" rest') /\
    (e.(Section) = EmptyString -> Resource e = EmptyString).
Proof.
  intros Hparse.
  apply parseLineEntry_Some_inv in Hparse
    as (f & tm & Hwf & -> & _ & Hsize & Hlt & ->).
  cbn [Status Size Section Resource].
  destruct (clf_wellformed_inv f Hwf)
    as (_ & _ & _ & _ & _ & Hpath & _ & Hlen & Hstatus & _).
  split; [by apply decimal_value_status|].
  split.
  { split; [|exact Hlt]. unfold token in Hsize.
    apply andb_prop in Hsize as [_ Hsize].
    apply (decimal_value_from_ge 0 _ Hsize). lia. }
  exists (f_slash f), (f_seg f), (f_rest f). unfold clf_path, clf_section.
  split; [reflexivity|]. split; [by rewrite append_assoc|].
  unfold path_wellformed, token in Hpath.
  apply orb_prop in Hpath
    as [[[[Hne Hseg]%andb_prop Hrest]%andb_prop Hstop]%andb_prop |
        [[Hsl Hseg]%andb_prop Hrest]%andb_prop].
  - split; [exact Hseg|]. split.
    + destruct (f_rest f) as [|c rest']; [by left|right].
      cbn [string_forallb] in Hrest. apply andb_prop in Hrest as [Hc _].
      apply negb_true_iff in Hstop. cbn [starts_with] in Hstop.
      rewrite (slash_only c Hc Hstop). by exists rest'.
    + destruct (f_seg f); [discriminate|]. by destruct (f_slash f).
  - destruct (f_seg f); [|discriminate]. destruct (f_rest f); [|discriminate].
    apply negb_true_iff in Hsl as ->. split; [reflexivity|]. split; [by left|done].
Qed.

Lemma parsed_entry_invariants_witness :
  0 <= 200 <= 999 /\ 0 <= 12 < 2 ^ 63 /\
  exists (sl : bool) seg rest,
    "/a" = (if sl then "/" else EmptyString) +:+ seg /\
    "/a/b" = "/a" +:+ rest /\
    string_forallb (class_matches segmentByte) seg = true /\
    (rest = EmptyString \/ exists rest', rest = String "/" rest') /\
    ("/a" = EmptyString -> "/a/b" = EmptyString).
Proof.
  refine (parsed_entry_invariants (sample_line "/a/b" "12")
    {| ClientIP := "238.129.94.11"; UserID := "-";
       Time := {| time.Year := 2000; time.Month := 10; time.Day := 10;
                  time.Hour := 13; time.Minute := 55; time.Sec := 36;
                  time.Nsec := 0; time.ZoneOffset := -25200 |};
       Method := "GET"; Section := "/a"; Resource := "/a/b";
       Status := 200; Size := 12 |} _).
  vm_compute; reflexivity.
Defined.

(** X2: a line on which [parseLineEntry] fails has one of four errors and no
    other: the line is not well-formed and the error says that it could
    not be parsed; or it is well-formed and the error is that of
    [time.Parse] on the timestamp, the syntax error of [strconv.Atoi] on a
    size that is the dash, or its range error on a size of digits whose
    value is 2^63 or more.  The conversion of the status never fails. *)
Theorem parse_errors_classified (line : string) (err : error) :
  parseLineEntry line = (None, Some err) ->
  (err = errorString ("could not parse line '" +:+ line +:+ "'") /\
   forall f, clf_wellformed f = true -> line <> clf_line f) \/
  exists f,
    clf_wellformed f = true /\ line = clf_line f /\
    ((exists le ve msg,
        err = ParseError commonLogDateFormat (f_timestamp f) le ve msg) \/
     (f_size f = "-" /\ err = NumError "Atoi" "-" ErrSyntax) \/
     (token digit (f_size f) = true /\ 2 ^ 63 <= decimal_value (f_size f) /\
      err = NumError "Atoi" (f_size f) ErrRange)).
Proof.
  intros Hparse.
  destruct (FindStringSubmatch commonLogFormatRegexp line) as [m|] eqn:Hm.
  - right. apply FindStringSubmatch_wellformed in Hm as (f & whole & Hwf & -> & _).
    exists f. split; [exact Hwf|]. split; [reflexivity|].
    rewrite (parseLineEntry_clf f Hwf) in Hparse.
    destruct (clf_wellformed_inv f Hwf)
      as (_ & _ & _ & _ & _ & _ & _ & _ & _ & Hsize).
    destruct (time.Parse _ _) as [tm | e] eqn:Htime.
    + right. destruct Hsize as [Heq | [Hsize _]].
      * rewrite Heq in Hparse. cbn in Hparse. injection Hparse as <-. by left.
      * assert (String.eqb (f_size f) "-" = false) as Hdash.
        { apply String.eqb_neq. intros Heq. rewrite Heq in Hsize. discriminate. }
        rewrite Hdash in Hparse.
        destruct (Z.ltb_spec (decimal_value (f_size f)) (2 ^ 63)); [discriminate|].
        injection Hparse as <-. by right.
    + left. injection Hparse as ->. by apply Parse_error.
  - left. unfold parseLineEntry in Hparse. rewrite Hm in Hparse.
    injection Hparse as <-. split; [reflexivity|].
    intros f Hwf ->. destruct (clf_submatches f Hwf) as [whole Hf]. congruence.
Qed.

Lemma parse_errors_classified_witness :
  (NumError "Atoi" "9223372036854775808" ErrRange =
     errorString ("could not parse line '" +:+
                  clf_line (sample_fields "9223372036854775808") +:+ "'") /\
   forall f, clf_wellformed f = true ->
             clf_line (sample_fields "9223372036854775808") <> clf_line f) \/
  exists f,
    clf_wellformed f = true /\
    clf_line (sample_fields "9223372036854775808") = clf_line f /\
    ((exists le ve msg,
        NumError "Atoi" "9223372036854775808" ErrRange =
        ParseError commonLogDateFormat (f_timestamp f) le ve msg) \/
     (f_size f = "-" /\
      NumError "Atoi" "9223372036854775808" ErrRange = NumError "Atoi" "-" ErrSyntax) \/
     (token digit (f_size f) = true /\ 2 ^ 63 <= decimal_value (f_size f) /\
      NumError "Atoi" "9223372036854775808" ErrRange =
      NumError "Atoi" (f_size f) ErrRange)).
Proof.
  refine (parse_errors_classified
    (clf_line (sample_fields "9223372036854775808")) _ _).
  vm_compute; reflexivity.
Defined.

(** X15: a match of the pattern has nine submatches, so that the indices the
    parser uses, 1 to 8, are all in range; and it starts at the first byte
    of the line: the whole match is a prefix of the line. *)
Theorem submatches_nine_and_anchored (line : string) (m : list string) :
  FindStringSubmatch commonLogFormatRegexp line = Some m ->
  length m = 9%nat /\ exists rest, line = m !!! 0%nat +:+ rest.
Proof.
  intros Hm.
  destruct (FindStringSubmatch_anchored _ _ Hm) as (t & rest & caps & Hline & Hcaps).
  apply FindStringSubmatch_wellformed in Hm as (f & whole & _ & _ & ->).
  split; [reflexivity|]. exists rest.
  destruct caps as [|c0 caps]; [discriminate|].
  cbn in Hcaps. injection Hcaps as -> _. exact Hline.
Qed.

Lemma submatches_nine_and_anchored_witness :
  exists m,
    FindStringSubmatch commonLogFormatRegexp (clf_line (sample_fields "5034")) = Some m /\
    length m = 9%nat /\
    exists rest, clf_line (sample_fields "5034") = m !!! 0%nat +:+ rest.
Proof.
  eexists. split; [vm_compute; reflexivity|].
  refine (submatches_nine_and_anchored (clf_line (sample_fields "5034")) _ _).
  vm_compute; reflexivity.
Defined.

(** X16: the result of [parseLineEntry] depends only on the fields that the
    pattern captures: two well-formed lines that differ in the identity
    field, in the protocol version or in the text after the size give the
    same entry or the same error. *)
Theorem uncaptured_fields_ignored (f1 f2 : clf_fields) :
  clf_wellformed f1 = true -> clf_wellformed f2 = true ->
  f_client f1 = f_client f2 -> f_user f1 = f_user f2 ->
  f_timestamp f1 = f_timestamp f2 -> f_method f1 = f_method f2 ->
  f_slash f1 = f_slash f2 -> f_seg f1 = f_seg f2 -> f_rest f1 = f_rest f2 ->
  f_status f1 = f_status f2 -> f_size f1 = f_size f2 ->
  parseLineEntry (clf_line f1) = parseLineEntry (clf_line f2).
Proof.
  intros Hwf1 Hwf2 Hclient Huser Hts Hmethod Hslash Hseg Hrest Hstatus Hsize.
  rewrite (parseLineEntry_clf f1 Hwf1), (parseLineEntry_clf f2 Hwf2).
  unfold clf_path, clf_section.
  by rewrite Hclient, Huser, Hts, Hmethod, Hslash, Hseg, Hrest, Hstatus, Hsize.
Qed.

Lemma uncaptured_fields_ignored_witness :
  parseLineEntry (clf_line (sample_fields "5034")) =
  parseLineEntry (clf_line
    {| f_client := "238.129.94.11"; f_ident := "frank"; f_user := "-";
       f_timestamp := "10/Oct/2000:13:55:36 -0700"; f_method := "PUT";
       f_slash := true; f_seg := "section-a"; f_rest := "/posts";
       f_version := "2"; f_status := "200"; f_size := "5034";
       f_trailer := " and more" |}).
Proof.
  refine (uncaptured_fields_ignored (sample_fields "5034")
    {| f_client := "238.129.94.11"; f_ident := "frank"; f_user := "-";
       f_timestamp := "10/Oct/2000:13:55:36 -0700"; f_method := "PUT";
       f_slash := true; f_seg := "section-a"; f_rest := "/posts";
       f_version := "2"; f_status := "200"; f_size := "5034";
       f_trailer := " and more" |} _ _ _ _ _ _ _ _ _ _ _); reflexivity.
Defined.

(** * The reports as functions of the windows *)















(** * White space around a line *)

Lemma spaceWidth_space (last : bool) (c : ascii) (s : string) :
  ascii_space c = true -> bytes.spaceWidth last (String c s) = 1%nat.
Proof.
  unfold ascii_space, bytes.spaceWidth. intros Hc.
  destruct last; cbn [String.get from_option]; by rewrite Hc.
Qed.

Lemma spaceWidth_plain (last : bool) (c : ascii) (s : string) :
  plain c = true -> bytes.spaceWidth last (String c s) = 0%nat.
Proof.
  unfold plain, ascii_space, bytes.spaceWidth.
  intros [Hlt Hns]%andb_prop. apply Z.ltb_lt in Hlt. apply negb_true_iff in Hns.
  destruct last; cbn [String.get from_option]; rewrite Hns.
  - set (b1 := from_option byte_val (-1) (String.get 0 s)).
    set (b2 := from_option byte_val (-1) (String.get 1 s)).
    assert (forall k, 128 <= k -> (byte_val c =? k) = false) as Hne
      by (intros k Hk; apply Z.eqb_neq; lia).
    assert ((128 <=? byte_val c) = false) as Hge by (apply Z.leb_gt; lia).
    rewrite !Hne, Hge by lia. cbn [andb orb]. by rewrite !andb_false_r.
  - assert (forall k, 128 <= k -> (byte_val c =? k) = false) as Hne
      by (intros k Hk; apply Z.eqb_neq; lia).
    rewrite !Hne by lia. reflexivity.
Qed.

Lemma length_append (s t : string) :
  String.length (s +:+ t) = (String.length s + String.length t)%nat.
Proof.
  induction s as [|c s IH]; [reflexivity|].
  rewrite append_cons. cbn [String.length]. by rewrite IH.
Qed.

Lemma rev_append (s t : string) :
  String.rev (s +:+ t) = String.rev t +:+ String.rev s.
Proof.
  induction s as [|c s IH].
  - rewrite append_nil. change (String.rev EmptyString) with EmptyString.
    by rewrite append_nil_r.
  - by rewrite append_cons, !rev_cons, IH, append_assoc.
Qed.

Lemma rev_involutive (s : string) : String.rev (String.rev s) = s.
Proof.
  induction s as [|c s IH]; [reflexivity|].
  by rewrite rev_cons, rev_append, IH.
Qed.

Lemma length_rev (s : string) : String.length (String.rev s) = String.length s.
Proof.
  induction s as [|c s IH]; [reflexivity|].
  rewrite rev_cons, length_append, IH. cbn [String.length str1]. lia.
Qed.

Lemma forallb_rev (p : ascii -> bool) (s : string) :
  string_forallb p (String.rev s) = string_forallb p s.
Proof.
  induction s as [|c s IH]; [reflexivity|].
  rewrite rev_cons, forallb_append, IH. cbn [string_forallb str1].
  by rewrite andb_true_r, andb_comm.
Qed.

Lemma starts_with_append (p : ascii -> bool) (s t : string) :
  starts_with p s = true -> starts_with p (s +:+ t) = true.
Proof. by destruct s. Qed.

Lemma ends_with_append (p : ascii -> bool) (s t : string) :
  ends_with p t = true -> ends_with p (s +:+ t) = true.
Proof. unfold ends_with. rewrite rev_append. apply starts_with_append. Qed.

Lemma ends_with_forallb (p : ascii -> bool) (s : string) :
  is_empty s = false -> string_forallb p s = true -> ends_with p s = true.
Proof.
  intros Hne Hall. unfold ends_with. rewrite <- forallb_rev in Hall.
  assert (is_empty (String.rev s) = false) as Hne'.
  { destruct s as [|c s]; [discriminate|]. rewrite rev_cons.
    by destruct (String.rev s). }
  destruct (String.rev s) as [|c r]; [discriminate|].
  cbn [string_forallb] in Hall. by apply andb_prop in Hall as [Hc _].
Qed.

Lemma trim_spaces (last : bool) (ws s : string) (fuel : nat) :
  string_forallb ascii_space ws = true ->
  (String.length ws <= fuel)%nat ->
  bytes.trim last fuel (ws +:+ s) = bytes.trim last (fuel - String.length ws) s.
Proof.
  revert fuel; induction ws as [|c ws IH]; intros fuel Hws Hfuel.
  { rewrite append_nil. cbn [String.length]. by rewrite Nat.sub_0_r. }
  cbn [string_forallb] in Hws. apply andb_prop in Hws as [Hc Hws].
  cbn [String.length] in *. destruct fuel as [|fuel]; [lia|].
  rewrite append_cons. cbn [bytes.trim]. rewrite (spaceWidth_space _ _ _ Hc).
  cbn [String.length String.substring].
  destruct (substring_all (S (String.length (ws +:+ s)) - 1) (ws +:+ s) ltac:(lia))
    as [-> _].
  rewrite IH by (done || lia). reflexivity.
Qed.

Lemma trim_plain (last : bool) (s : string) (fuel : nat) :
  starts_with plain s = true -> bytes.trim last fuel s = s.
Proof.
  destruct s as [|c s]; [discriminate|]. cbn [starts_with]. intros Hc.
  destruct fuel; [reflexivity|]. cbn [bytes.trim].
  by rewrite (spaceWidth_plain _ _ _ Hc).
Qed.

(** [TrimSpace] strips the white space of ASCII around a text that starts
    and ends with a byte of ASCII that is not white space, and nothing
    else. *)
Lemma TrimSpace_strips (ws1 s ws2 : string) :
  string_forallb ascii_space ws1 = true ->
  string_forallb ascii_space ws2 = true ->
  starts_with plain s = true -> ends_with plain s = true ->
  bytes.TrimSpace (ws1 +:+ s +:+ ws2) = s.
Proof.
  intros Hws1 Hws2 Hfirst Hlast. unfold bytes.TrimSpace. cbv zeta.
  rewrite (trim_spaces false ws1 _ _ Hws1).
  2:{ rewrite length_append. lia. }
  rewrite (trim_plain false (s +:+ ws2)) by (by apply starts_with_append).
  rewrite rev_append.
  rewrite (trim_spaces true (String.rev ws2)).
  2:{ by rewrite forallb_rev. }
  2:{ rewrite length_rev, length_append. lia. }
  rewrite (trim_plain true (String.rev s)) by exact Hlast.
  apply rev_involutive.
Qed.

Lemma TrimSpace_plain (s : string) :
  starts_with plain s = true -> ends_with plain s = true ->
  bytes.TrimSpace s = s.
Proof.
  intros Hfirst Hlast.
  pose proof (TrimSpace_strips EmptyString s EmptyString eq_refl eq_refl Hfirst Hlast)
    as H.
  by rewrite append_nil, append_nil_r in H.
Qed.

(** X9: the white space of ASCII around a line does not count: a line that is
    indented, or that ends with a carriage return before its newline, is
    processed as the bare line is. *)
Theorem surrounding_space_ignored (ws1 line ws2 : string) (w : world) :
  string_forallb ascii_space ws1 = true ->
  string_forallb ascii_space ws2 = true ->
  starts_with plain line = true -> ends_with plain line = true ->
  Run_iteration (ws1 +:+ line +:+ ws2) w = Run_iteration line w.
Proof.
  intros Hws1 Hws2 Hfirst Hlast. unfold Run_iteration. cbv zeta.
  by rewrite (TrimSpace_strips _ _ _ Hws1 Hws2 Hfirst Hlast),
             (TrimSpace_plain _ Hfirst Hlast).
Qed.

Lemma surrounding_space_ignored_witness :
  Run_iteration ("  " +:+ clf_line (sample_fields "5034") +:+ String "013" newline)
    (newLogger sample_config) =
  Run_iteration (clf_line (sample_fields "5034")) (newLogger sample_config).
Proof.
  refine (surrounding_space_ignored "  " (clf_line (sample_fields "5034"))
    (String "013" newline) (newLogger sample_config) _ _ _ _); reflexivity.
Defined.

Lemma digit_plain (c : ascii) : class_matches digit c = true -> plain c = true.
Proof.
  intros Hc. destruct (digit_class c Hc) as (Hd & _ & _ & _).
  unfold is_digit in Hd. apply andb_prop in Hd as [H1 H2].
  apply Z.leb_le in H1, H2. unfold plain, ascii_space.
  apply andb_true_intro. split; [apply Z.ltb_lt; lia|].
  apply negb_true_iff, orb_false_intro.
  - apply andb_false_intro2, Z.leb_gt. lia.
  - apply Z.eqb_neq. lia.
Qed.

Lemma ends_with_impl (p q : ascii -> bool) (s : string) :
  (forall c, p c = true -> q c = true) ->
  ends_with p s = true -> ends_with q s = true.
Proof.
  intros Hpq. unfold ends_with. destruct (String.rev s); [done|]. apply Hpq.
Qed.

(** A well-formed line starts with its client field and ends with its
    trailer, or with its size field when there is no trailer. *)
Lemma clf_line_plain (f : clf_fields) :
  clf_wellformed f = true ->
  starts_with plain (f_client f) = true ->
  is_empty (f_trailer f) || ends_with plain (f_trailer f) = true ->
  starts_with plain (clf_line f) = true /\ ends_with plain (clf_line f) = true.
Proof.
  intros Hwf Hfirst Hlast. split.
  { unfold clf_line. by apply starts_with_append. }
  destruct (clf_wellformed_inv f Hwf)
    as (_ & _ & _ & _ & _ & _ & _ & _ & _ & Hsize).
  unfold clf_line. do 18 apply ends_with_append.
  destruct (f_trailer f) as [|c t] eqn:Ht.
  - rewrite append_nil_r. destruct Hsize as [-> | [Hsize _]]; [reflexivity|].
    unfold token in Hsize. apply andb_prop in Hsize as [Hne Hall].
    apply negb_true_iff in Hne.
    apply (ends_with_impl (class_matches digit)); [apply digit_plain|].
    by apply ends_with_forallb.
  - apply ends_with_append. exact Hlast.
Qed.

(** The line that reaches the parser, and what the parser makes of it. *)
Lemma parse_trimmed_wellformed (f : clf_fields) (tm : time.Time) (ws : string) :
  clf_wellformed f = true ->
  starts_with plain (f_client f) = true ->
  is_empty (f_trailer f) || ends_with plain (f_trailer f) = true ->
  time.Parse commonLogDateFormat (f_timestamp f) = inl tm ->
  token digit (f_size f) = true -> decimal_value (f_size f) < 2 ^ 63 ->
  string_forallb ascii_space ws = true ->
  parseLineEntry (bytes.TrimSpace (clf_line f +:+ ws)) =
  (Some {| ClientIP := f_client f; UserID := f_user f; Time := tm;
           Method := f_method f; Section := clf_section f;
           Resource := clf_path f;
           Status := decimal_value (f_status f);
           Size := decimal_value (f_size f) |}, None).
Proof.
  intros Hwf Hfirst Hlast Htime Hsize Hlt Hws.
  destruct (clf_line_plain f Hwf Hfirst Hlast) as [Hf Hl].
  pose proof (TrimSpace_strips EmptyString _ ws eq_refl Hws Hf Hl) as Htrim.
  rewrite append_nil in Htrim.
  rewrite Htrim, (parseLineEntry_clf f Hwf), Htime.
  assert (String.eqb (f_size f) "-" = false) as ->.
  { apply String.eqb_neq. intros Heq. rewrite Heq in Hsize. discriminate. }
  by destruct (Z.ltb_spec (decimal_value (f_size f)) (2 ^ 63)); [|lia].
Qed.

(** X8: a well-formed line that starts with a byte of ASCII other than white
    space, whose timestamp and size convert, is counted under the section
    of its path when it comes with its newline (or any white space of
    ASCII) behind it: the iteration returns, with the total and the counter
    of that section one higher and nothing written. *)
Theorem wellformed_line_is_counted (f : clf_fields) (tm : time.Time) (ws : string)
    (w : world) :
  clf_wellformed f = true ->
  starts_with plain (f_client f) = true ->
  is_empty (f_trailer f) || ends_with plain (f_trailer f) = true ->
  time.Parse commonLogDateFormat (f_timestamp f) = inl tm ->
  token digit (f_size f) = true -> decimal_value (f_size f) < 2 ^ 63 ->
  string_forallb ascii_space ws = true ->
  section_of (clf_line f +:+ ws) = Some (clf_section f) /\
  Run_iteration (clf_line f +:+ ws) w =
  Return tt
    {| lg := {| config := config (lg w);
                sectionHits :=
                  <[clf_section f :=
                      int_wrap (default 0 (sectionHits (lg w) !! clf_section f) + 1)]>
                    (sectionHits (lg w));
                totalTraffic := int_wrap (totalTraffic (lg w) + 1);
                isHighTrafficTriggered := isHighTrafficTriggered (lg w) |};
       output := output w;
       trace := trace w ++
         [EvRead fTotalTraffic; EvWrite fTotalTraffic; EvLock;
          EvRead fSectionHits; EvWrite fSectionHits; EvUnlock] |}.
Proof.
  intros Hwf Hfirst Hlast Htime Hsize Hlt Hws.
  pose proof (parse_trimmed_wellformed f tm ws Hwf Hfirst Hlast Htime Hsize Hlt Hws)
    as Hparse.
  split.
  - unfold section_of. by rewrite Hparse.
  - by rewrite (Run_iteration_parse_ok _ _ _ Hparse).
Qed.

Lemma wellformed_line_is_counted_witness :
  section_of (clf_line (sample_fields "5034") +:+ String "013" newline) =
  Some "/section-a".
Proof.
  refine (proj1 (wellformed_line_is_counted (sample_fields "5034")
    {| time.Year := 2000; time.Month := 10; time.Day := 10; time.Hour := 13;
       time.Minute := 55; time.Sec := 36; time.Nsec := 0;
       time.ZoneOffset := -25200 |} (String "013" newline)
    (newLogger sample_config) _ _ _ _ _ _ _)).
  - vm_compute; reflexivity.
  - vm_compute; reflexivity.
  - vm_compute; reflexivity.
  - vm_compute; reflexivity.
  - vm_compute; reflexivity.
  - vm_compute; reflexivity.
  - vm_compute; reflexivity.
Defined.

Lemma writeTestLine_fields (now section : string) :
  writeTestLine now section = clf_line (test_fields now section) +:+ newline.
Proof.
  unfold writeTestLine, clf_line, clf_path, test_fields.
  cbn [f_client f_ident f_user f_timestamp f_method f_slash f_seg f_rest
       f_version f_status f_size f_trailer].
  rewrite !append_assoc. reflexivity.
Qed.

(** X17: the line that the tests write for a section name made of bytes other
    than the slash, the space and the quote is counted under that name
    with a slash in front, whatever the time in it, as long as that time
    parses. *)
Theorem test_line_counted_under_section (now section : string) (tm : time.Time)
    (w : world) :
  token notRBracket now = true ->
  token segmentByte section = true ->
  time.Parse commonLogDateFormat now = inl tm ->
  section_of (writeTestLine now section) = Some ("/" +:+ section) /\
  exists w',
    Run_iteration (writeTestLine now section) w = Return tt w' /\
    output w' = output w /\
    sectionHits (lg w') !! ("/" +:+ section) =
      Some (int_wrap (default 0 (sectionHits (lg w) !! ("/" +:+ section)) + 1)).
Proof.
  intros Hnow Hsec Htime. rewrite writeTestLine_fields.
  assert (clf_wellformed (test_fields now section) = true) as Hwf.
  { unfold clf_wellformed, path_wellformed, test_fields.
    cbn [f_client f_ident f_user f_timestamp f_method f_slash f_seg f_rest
         f_version f_status f_size f_trailer].
    by rewrite Hnow, Hsec. }
  assert (parseLineEntry
            (bytes.TrimSpace (clf_line (test_fields now section) +:+ newline)) =
          (Some {| ClientIP := "238.129.94.11"; UserID := "-"; Time := tm;
                   Method := "PUT"; Section := "/" +:+ section;
                   Resource := "/" +:+ section +:+ "/posts";
                   Status := 200; Size := 5034 |}, None)) as Hparse.
  { by apply (parse_trimmed_wellformed (test_fields now section) tm newline). }
  split.
  - unfold section_of. by rewrite Hparse.
  - rewrite (Run_iteration_parse_ok _ _ _ Hparse). eexists.
    split; [reflexivity|]. split; [reflexivity|].
    cbn [lg sectionHits Section]. apply lookup_insert_eq.
Qed.

Lemma test_line_counted_under_section_witness :
  section_of (writeTestLine "10/Oct/2000:13:55:36 -0700" "section-a") =
  Some "/section-a".
Proof.
  refine (proj1 (test_line_counted_under_section
    "10/Oct/2000:13:55:36 -0700" "section-a"
    {| time.Year := 2000; time.Month := 10; time.Day := 10; time.Hour := 13;
       time.Minute := 55; time.Sec := 36; time.Nsec := 0;
       time.ZoneOffset := -25200 |} (newLogger sample_config) _ _ _)).
  - vm_compute; reflexivity.
  - vm_compute; reflexivity.
  - vm_compute; reflexivity.
Defined.

(** * The earlier revision of the parser *)

(** X20: the earlier revision of [parseLineEntry] never indexes out of range,
    although it lets through a slice of eight submatches and then reads
    the ninth: a match always has nine.  It returns what the present one
    returns, but for the message of a line that does not match, which
    has a newline more. *)
Theorem earlier_parseLineEntry_agrees (line : string) :
  earlier.parseLineEntry line =
  Some (match FindStringSubmatch commonLogFormatRegexp line with
        | Some _ => parseLineEntry line
        | None =>
            (None, Some (errorString
                           ("could not parse line '" +:+ line +:+ "'" +:+ newline)))
        end).
Proof.
  unfold earlier.parseLineEntry, parseLineEntry. cbv zeta.
  destruct (FindStringSubmatch commonLogFormatRegexp line) as [m|] eqn:Hm;
    [|reflexivity].
  apply FindStringSubmatch_wellformed in Hm as (f & whole & _ & _ & ->).
  cbv [default from_option id]. cbn [length Nat.ltb Nat.leb].
  unfold earlier.index.
  cbn [lookup list_lookup lookup_total list_lookup_total].
  destruct (time.Parse _ _); [|reflexivity].
  destruct (strconv.Atoi (f_status f)); [|reflexivity].
  destruct (strconv.Atoi (f_size f)); reflexivity.
Qed.
